(** * Trusted-boot firmware configuration helpers

    A shallow embedding of [plat/arm/common/arm_dyn_cfg_helpers.c]: the
    validator [arm_dyn_tb_fw_cfg_init], the [disable_auth] accessor and the
    reader and writer of the Mbed TLS heap descriptor.

    The four functions are written in a small monad that threads the
    configuration blob (the memory behind [void *dtb]), records every call
    into the device-tree library and every diagnostic, and can stop at a
    failed [assert].  Out-parameters ([int *node], [uint32_t *disable_auth],
    [void **heap_addr], [size_t *heap_size]) are passed in with the content
    they have before the call and returned with the content they have
    after it. *)

From stdpp Require Import base option list gmap strings.
From Stdlib Require Import ZArith Lia.

Local Open Scope Z_scope.

(** ** The device-tree library *)

Module Fdt.

(** Modelled from the spec: the structural header of a blob (libfdt's
    [struct fdt_header] is not part of the sources at hand).  The spec
    names a magic value, the declared total size and the offsets of the
    structure and string tables. *)
Record fdt_header : Type := mk_header {
  magic : Z;
  totalsize : Z;
  off_dt_struct : Z;
  off_dt_strings : Z
}.

(** Modelled from the spec: a node of the property tree.  It carries its
    compatibility tags and its scalar properties; a scalar property is a
    named array of 32-bit cells, most significant cell first. *)
Record fdt_node : Type := mk_node {
  node_compatible : list string;
  node_props : gmap string (list Z)
}.

(** Modelled from the spec: the configuration blob, a header followed by
    the nodes of the tree.  A node handle is the position of the node in
    the blob, counted from zero, so a handle is never negative. *)
Record blob : Type := mk_blob {
  blob_header : fdt_header;
  blob_nodes : list fdt_node
}.

Definition FDT_MAGIC : Z := 0xd00dfeed.
Definition FDT_ERR_NOTFOUND : Z := 1.
Definition FDT_ERR_BADMAGIC : Z := 9.
Definition FDT_ERR_TRUNCATED : Z := 8.

(** Modelled from the spec: [check_header].  libfdt's [fdt_check_header]
    is missing; it answers [0] for a well-formed header and a negative
    error code otherwise.  Well-formed means the magic value is the
    device-tree magic and both table offsets lie inside the declared
    total size. *)
Definition fdt_check_header (b : blob) : Z :=
  let h := blob_header b in
  if negb (magic h =? FDT_MAGIC) then - FDT_ERR_BADMAGIC
  else if (0 <=? off_dt_struct h) && (off_dt_struct h <? totalsize h)
          && (0 <=? off_dt_strings h) && (off_dt_strings h <? totalsize h)
       then 0
       else - FDT_ERR_TRUNCATED.

Fixpoint search_compatible (compatible : string) (ns : list fdt_node)
    (offset startoffset : Z) : Z :=
  match ns with
  | [] => - FDT_ERR_NOTFOUND
  | n :: ns' =>
      if (startoffset <? offset)
         && bool_decide (compatible ∈ node_compatible n)
      then offset
      else search_compatible compatible ns' (offset + 1) startoffset
  end.

(** Modelled from the spec: [find_node_by_compatible].  libfdt's
    [fdt_node_offset_by_compatible] is missing; it answers the handle of
    the first node after [startoffset] that carries the tag, and the
    negative code [-FDT_ERR_NOTFOUND] when there is none. *)
Definition fdt_node_offset_by_compatible (b : blob) (startoffset : Z)
    (compatible : string) : Z :=
  search_compatible compatible (blob_nodes b) 0 startoffset.

Definition node_at (b : blob) (node : Z) : option fdt_node :=
  if node <? 0 then None else blob_nodes b !! Z.to_nat node.

Definition fdt_getprop (b : blob) (node : Z) (prop : string)
    : option (list Z) :=
  n ← node_at b node; node_props n !! prop.

Definition set_node_prop (n : fdt_node) (prop : string) (cs : list Z)
    : fdt_node :=
  mk_node (node_compatible n) (<[prop := cs]> (node_props n)).

(** Overwrites the cells of one property of one node.  The caller has
    checked that the slot exists. *)
Definition fdt_setprop_cells (b : blob) (node : Z) (prop : string)
    (cs : list Z) : blob :=
  match node_at b node with
  | Some n =>
      mk_blob (blob_header b)
              (<[Z.to_nat node := set_node_prop n prop cs]> (blob_nodes b))
  | None => b
  end.

(** One cell holds 32 bits. *)
Definition cell (v : Z) : Z := v mod 2 ^ 32.

(** The scalar encoded by an array of cells, most significant first. *)
Definition cells_to_value (cs : list Z) : Z :=
  fold_left (fun acc c => Z.lor (Z.shiftl acc 32) (cell c)) cs 0.

(** The [n] low cells of a scalar, most significant first. *)
Fixpoint value_to_cells (n : nat) (v : Z) : list Z :=
  match n with
  | O => []
  | S n' => cell (Z.shiftr v (32 * Z.of_nat n')) :: value_to_cells n' v
  end.

(** Modelled from the spec: [read_cells].  The wrapper
    [fdtw_read_cells] of [common/fdt_wrappers.c] is missing.  It fails
    with [-1] when the property is absent or does not have the required
    number of cells, and leaves [*value] alone; otherwise it stores the
    scalar in [*value] and answers [0].  The object written is as wide as
    the cells read: 32 bits for one cell, 64 bits for two. *)
Definition fdtw_read_cells (b : blob) (node : Z) (prop : string)
    (cells : Z) (value : Z) : Z * Z :=
  match fdt_getprop b node prop with
  | None => (-1, value)
  | Some cs =>
      if Z.of_nat (length cs) =? cells
      then (0, cells_to_value cs)
      else (-1, value)
  end.

(** Modelled from the spec: [write_cells_in_place].  The wrapper
    [fdtw_write_inplace_cells] of [common/fdt_wrappers.c] is missing.
    It overwrites an existing slot of exactly the required width and
    never adds a property or changes the length of one; it fails with
    [-1] and leaves the blob alone when the slot is absent or has another
    width.  The wrapper also rewrites the caller's scalar in place; the
    callers below pass the address of a by-value parameter that is dead
    after the call, so that effect is not threaded. *)
Definition fdtw_write_inplace_cells (b : blob) (node : Z) (prop : string)
    (cells : Z) (value : Z) : Z * blob :=
  match fdt_getprop b node prop with
  | None => (-1, b)
  | Some cs =>
      if Z.of_nat (length cs) =? cells
      then (0, fdt_setprop_cells b node prop
                 (value_to_cells (Z.to_nat cells) value))
      else (-1, b)
  end.

End Fdt.

Import Fdt.

(** ** Effects: blob, trace and assertions *)

Inductive log_level : Type := LOG_ERROR | LOG_WARNING | LOG_VERBOSE.

(** The diagnostics of the source file, one constructor per format string,
    with the arguments of the format. *)
Inductive message : Type :=
| MsgReadCellFailed            (* Read cell failed for `disable_auth` *)
| MsgInvalidValue (v : Z)      (* Invalid value for `disable_auth` cell %d *)
| MsgCellFound (v : Z)         (* Dyn cfg: `disable_auth` cell found ... *)
| MsgInvalidDtb                (* Invalid DTB file passed as TB_FW_CONFIG *)
| MsgCompatibleNotFound        (* The compatible property `arm,tb_fw` not
                                  found in the config *)
| MsgFound                     (* Dyn cfg: Found arm,tb_fw in the config *)
| MsgCannotRetrieveHeap        (* Invalid TB_FW_CONFIG. Cannot retrieve Mbed
                                  TLS heap information from DTB *)
| MsgReadError (prop : string) (* Error while reading %s from DTB *)
| MsgNoRootNode                (* Invalid TB_FW_CONFIG loaded. Unable to get
                                  root node *)
| MsgWriteError (prop : string)(* Unable to write DTB property %s *).

(** What a run of the helpers does that a caller or an observer can see:
    the calls into the device-tree library and the diagnostics. *)
Inductive event : Type :=
| CallCheckHeader
| CallNodeOffsetByCompatible (startoffset : Z) (compatible : string)
| CallReadCells (node : Z) (prop : string) (cells : Z)
| CallWriteInplaceCells (node : Z) (prop : string) (cells : Z) (value : Z)
| Log (lvl : log_level) (msg : message).

Record world : Type := mk_world {
  w_dtb : blob;
  w_trace : list event
}.

Inductive outcome (A : Type) : Type :=
| Returned (a : A) (w : world)
| AssertionFailed (w : world).
Arguments Returned {A} a w.
Arguments AssertionFailed {A} w.

Definition M (A : Type) : Type := world -> outcome A.

#[global] Instance M_ret : MRet M := fun A a w => Returned a w.
#[global] Instance M_bind : MBind M := fun A B f m w =>
  match m w with
  | Returned a w' => f a w'
  | AssertionFailed w' => AssertionFailed w'
  end.

Definition emit (e : event) : M unit :=
  fun w => Returned tt (mk_world (w_dtb w) (w_trace w ++ [e])).

Definition get_dtb : M blob := fun w => Returned (w_dtb w) w.

Definition put_dtb (b : blob) : M unit :=
  fun w => Returned tt (mk_world b (w_trace w)).

Definition panic {A : Type} : M A := fun w => AssertionFailed w.

(** [assert(e)]: with [ENABLE_ASSERTIONS] the expression is evaluated and a
    false answer stops the program; without, the expression is not even
    evaluated. *)
Definition assert (ENABLE_ASSERTIONS : bool) (e : M bool) : M unit :=
  if ENABLE_ASSERTIONS
  then ok ← e; if ok : bool then mret tt else panic
  else mret tt.

Definition WARN (msg : message) : M unit := emit (Log LOG_WARNING msg).
Definition ERROR (msg : message) : M unit := emit (Log LOG_ERROR msg).
Definition VERBOSE (msg : message) : M unit := emit (Log LOG_VERBOSE msg).

(** The library calls, on the blob behind [dtb]. *)
Definition check_header : M Z :=
  emit CallCheckHeader;;
  b ← get_dtb; mret (fdt_check_header b).

Definition node_offset_by_compatible (startoffset : Z) (compatible : string)
    : M Z :=
  emit (CallNodeOffsetByCompatible startoffset compatible);;
  b ← get_dtb; mret (fdt_node_offset_by_compatible b startoffset compatible).

Definition read_cells (node : Z) (prop : string) (cells : Z) (value : Z)
    : M (Z * Z) :=
  emit (CallReadCells node prop cells);;
  b ← get_dtb; mret (fdtw_read_cells b node prop cells value).

Definition write_inplace_cells (node : Z) (prop : string) (cells : Z)
    (value : Z) : M Z :=
  emit (CallWriteInplaceCells node prop cells value);;
  b ← get_dtb;
  let '(err, b') := fdtw_write_inplace_cells b node prop cells value in
  put_dtb b';; mret err.

(** ** Objects behind the out-pointers

    [void *] and [size_t] are 64 bits wide: the reader has two cells read
    through its [void **heap_addr], which fills a pointer of 64 bits, and
    a [size_t] is as wide as a pointer.  The target is little-endian, so
    the 32 bits at the address of a [size_t] are its low half.  A one-cell
    read through a [size_t *] therefore replaces the low half of the
    object and leaves its upper half as it was. *)

Definition low_half (obj : Z) : Z := obj mod 2 ^ 32.

Definition store_low_half (obj v : Z) : Z :=
  (obj / 2 ^ 32) * 2 ^ 32 + v mod 2 ^ 32.

(** ** The source file

    A pointer is modelled by what it points to, so the assertions that
    [dtb], [node] and [disable_auth] are not [NULL] hold by construction
    and are not written. *)

Definition DTB_PROP_MBEDTLS_HEAP_ADDR : string := "mbedtls_heap_addr".
Definition DTB_PROP_MBEDTLS_HEAP_SIZE : string := "mbedtls_heap_size".

(** [int arm_dyn_get_disable_auth(void *dtb, int node,
                                  uint32_t *disable_auth)].
    Answers the status and the content of [*disable_auth]. *)
Definition arm_dyn_get_disable_auth (ENABLE_ASSERTIONS : bool) (node : Z)
    (disable_auth : Z) : M (Z * Z) :=
  (* Check if the pointer to DT is correct *)
  assert ENABLE_ASSERTIONS (r ← check_header; mret (r =? 0));;
  (* Assert the node offset point to "arm,tb_fw" compatible property *)
  assert ENABLE_ASSERTIONS
    (r ← node_offset_by_compatible (-1) "arm,tb_fw"; mret (node =? r));;
  (* Locate the disable_auth cell and read the value *)
  '(err, disable_auth) ← read_cells node "disable_auth" 1 disable_auth;
  if err <? 0 then
    WARN MsgReadCellFailed;;
    mret (-1, disable_auth)
  else
    (* Check if the value is boolean *)
    if negb (disable_auth =? 0) && negb (disable_auth =? 1) then
      WARN (MsgInvalidValue disable_auth);;
      mret (-1, disable_auth)
    else
      VERBOSE (MsgCellFound disable_auth);;
      mret (0, disable_auth).

(** [int arm_dyn_tb_fw_cfg_init(void *dtb, int *node)].
    Answers the status and the content of [*node]. *)
Definition arm_dyn_tb_fw_cfg_init (node : Z) : M (Z * Z) :=
  (* Check if the pointer to DT is correct *)
  r ← check_header;
  if negb (r =? 0) then
    WARN MsgInvalidDtb;;
    mret (-1, node)
  else
    node ← node_offset_by_compatible (-1) "arm,tb_fw";
    if node <? 0 then
      WARN MsgCompatibleNotFound;;
      mret (-1, node)
    else
      VERBOSE MsgFound;;
      mret (0, node).

(** [int arm_get_dtb_mbedtls_heap_info(void *dtb, void **heap_addr,
                                       size_t *heap_size)].
    [dtb_root] is the content of the local of that name before it is
    assigned.  Answers the status and the contents of [*heap_addr] and
    [*heap_size].  The size is read as one cell through the [size_t *]:
    the wrapper sees the low half of [*heap_size] and what it leaves there
    is stored back into the low half. *)
Definition arm_get_dtb_mbedtls_heap_info (dtb_root : Z)
    (heap_addr heap_size : Z) : M (Z * Z * Z) :=
  (* Verify the DTB is valid and get the root node *)
  '(err, dtb_root) ← arm_dyn_tb_fw_cfg_init dtb_root;
  if err <? 0 then
    ERROR MsgCannotRetrieveHeap;;
    mret (-1, heap_addr, heap_size)
  else
    (* Retrieve the Mbed TLS heap details from the DTB *)
    '(err, heap_addr) ←
      read_cells dtb_root DTB_PROP_MBEDTLS_HEAP_ADDR 2 heap_addr;
    if err <? 0 then
      ERROR (MsgReadError DTB_PROP_MBEDTLS_HEAP_ADDR);;
      mret (-1, heap_addr, heap_size)
    else
      '(err, low) ←
        read_cells dtb_root DTB_PROP_MBEDTLS_HEAP_SIZE 1
          (low_half heap_size);
      let heap_size := store_low_half heap_size low in
      if err <? 0 then
        ERROR (MsgReadError DTB_PROP_MBEDTLS_HEAP_SIZE);;
        mret (-1, heap_addr, heap_size)
      else
        mret (0, heap_addr, heap_size).

(** [int arm_set_dtb_mbedtls_heap_info(void *dtb, void *heap_addr,
                                       size_t heap_size)].
    [dtb_root] is the content of the local of that name before it is
    assigned.  Answers the status; the blob is in the state. *)
Definition arm_set_dtb_mbedtls_heap_info (dtb_root : Z)
    (heap_addr heap_size : Z) : M Z :=
  (* Verify that the DTB is valid, before attempting to write to it,
     and get the DTB root node. *)
  '(err, dtb_root) ← arm_dyn_tb_fw_cfg_init dtb_root;
  if err <? 0 then
    ERROR MsgNoRootNode;;
    mret (-1)
  else
    (* Write the heap address and size in the DTB. *)
    err ← write_inplace_cells dtb_root DTB_PROP_MBEDTLS_HEAP_ADDR 2 heap_addr;
    if err <? 0 then
      ERROR (MsgWriteError DTB_PROP_MBEDTLS_HEAP_ADDR);;
      mret (-1)
    else
      err ← write_inplace_cells dtb_root DTB_PROP_MBEDTLS_HEAP_SIZE 1
              heap_size;
      if err <? 0 then
        ERROR (MsgWriteError DTB_PROP_MBEDTLS_HEAP_SIZE);;
        mret (-1)
      else
        mret 0.

(** Running a helper on a blob, with an empty trace. *)
Definition run {A : Type} (m : M A) (b : blob) : outcome A :=
  m (mk_world b []).

Definition status_of {A : Type} (st : A -> Z) (o : outcome A) : option Z :=
  match o with
  | Returned a _ => Some (st a)
  | AssertionFailed _ => None
  end.

Definition result_of {A : Type} (o : outcome A) : option A :=
  match o with
  | Returned a _ => Some a
  | AssertionFailed _ => None
  end.

Definition blob_of {A : Type} (o : outcome A) : blob :=
  match o with
  | Returned _ w | AssertionFailed w => w_dtb w
  end.

Definition trace_of {A : Type} (o : outcome A) : list event :=
  match o with
  | Returned _ w | AssertionFailed w => w_trace w
  end.

(** ** The shape of a blob

    What an in-place write must not change: the header, the nodes and their
    tags, the names of the properties and the number of cells of each. *)

Definition node_shape (n : fdt_node) : list string * gmap string nat :=
  (node_compatible n, length <$> node_props n).

Definition blob_shape (b : blob)
    : fdt_header * list (list string * gmap string nat) :=
  (blob_header b, node_shape <$> blob_nodes b).

(** ** Answers of the helpers

    Closed forms of what each helper answers once the validator has
    succeeded; the lemmas below show that the helpers compute them. *)

Definition TB_FW : string := "arm,tb_fw".

(** The handle the validator produces for a blob. *)
Definition tb_fw_handle (b : blob) : Z :=
  fdt_node_offset_by_compatible b (-1) TB_FW.

(** The calls made by the two assertions of the accessor. *)
Definition asserts_trace (ENABLE_ASSERTIONS : bool) : list event :=
  if ENABLE_ASSERTIONS
  then [CallCheckHeader; CallNodeOffsetByCompatible (-1) TB_FW]
  else [].

(** What the accessor answers once its assertions are behind it. *)
Definition disable_auth_answer (tr : list event) (b : blob)
    (r : Z * Z) : outcome (Z * Z) :=
  if r.1 <? 0 then
    Returned (-1, r.2)
      (mk_world b (tr ++ [Log LOG_WARNING MsgReadCellFailed]))
  else if negb (r.2 =? 0) && negb (r.2 =? 1) then
    Returned (-1, r.2)
      (mk_world b (tr ++ [Log LOG_WARNING (MsgInvalidValue r.2)]))
  else
    Returned (0, r.2)
      (mk_world b (tr ++ [Log LOG_VERBOSE (MsgCellFound r.2)])).

Definition found_trace : list event :=
  [CallCheckHeader; CallNodeOffsetByCompatible (-1) TB_FW;
   Log LOG_VERBOSE MsgFound].

(** What the reader answers on a validated blob. *)
Definition get_heap_answer (tr : list event) (b : blob) (root : Z)
    (heap_addr heap_size : Z) : outcome (Z * Z * Z) :=
  let ADDR := DTB_PROP_MBEDTLS_HEAP_ADDR in
  let SIZE := DTB_PROP_MBEDTLS_HEAP_SIZE in
  let ra := fdtw_read_cells b root ADDR 2 heap_addr in
  if ra.1 <? 0 then
    Returned (-1, ra.2, heap_size)
      (mk_world b (tr ++ [CallReadCells root ADDR 2;
                          Log LOG_ERROR (MsgReadError ADDR)]))
  else
    let rs := fdtw_read_cells b root SIZE 1 (low_half heap_size) in
    if rs.1 <? 0 then
      Returned (-1, ra.2, store_low_half heap_size rs.2)
        (mk_world b (tr ++ [CallReadCells root ADDR 2;
                            CallReadCells root SIZE 1;
                            Log LOG_ERROR (MsgReadError SIZE)]))
    else
      Returned (0, ra.2, store_low_half heap_size rs.2)
        (mk_world b (tr ++ [CallReadCells root ADDR 2;
                            CallReadCells root SIZE 1])).

(** What the writer does on a validated blob. *)
Definition set_heap_answer (tr : list event) (b : blob) (root : Z)
    (heap_addr heap_size : Z) : outcome Z :=
  let ADDR := DTB_PROP_MBEDTLS_HEAP_ADDR in
  let SIZE := DTB_PROP_MBEDTLS_HEAP_SIZE in
  let wa := fdtw_write_inplace_cells b root ADDR 2 heap_addr in
  if wa.1 <? 0 then
    Returned (-1)
      (mk_world wa.2
         (tr ++ [CallWriteInplaceCells root ADDR 2 heap_addr;
                 Log LOG_ERROR (MsgWriteError ADDR)]))
  else
    let ws := fdtw_write_inplace_cells wa.2 root SIZE 1 heap_size in
    if ws.1 <? 0 then
      Returned (-1)
        (mk_world ws.2
           (tr ++ [CallWriteInplaceCells root ADDR 2 heap_addr;
                   CallWriteInplaceCells root SIZE 1 heap_size;
                   Log LOG_ERROR (MsgWriteError SIZE)]))
    else
      Returned 0
        (mk_world ws.2
           (tr ++ [CallWriteInplaceCells root ADDR 2 heap_addr;
                   CallWriteInplaceCells root SIZE 1 heap_size])).

(** A slot that a read of [cells] cells cannot use: the property is
    absent, or it has fewer cells than required. *)
Definition missing_or_short (b : blob) (node : Z) (prop : string)
    (cells : Z) : Prop :=
  match fdt_getprop b node prop with
  | None => True
  | Some cs => Z.of_nat (length cs) < cells
  end.

(** ** Two runs side by side *)





(** ** Sample blobs *)

Definition good_header : fdt_header := mk_header FDT_MAGIC 4096 56 1024.

Definition tb_fw_node (props : gmap string (list Z)) : fdt_node :=
  mk_node ["arm,tb_fw"] props.

Definition sample_props (auth : Z) : gmap string (list Z) :=
  <["disable_auth" := [auth]]>
    (<["mbedtls_heap_addr" := [0; 0]]>
       (<["mbedtls_heap_size" := [0]]> ∅)).

Definition sample_blob (auth : Z) : blob :=
  mk_blob good_header
    [mk_node ["arm,other"] (<["reg" := [7; 9]]> ∅);
     tb_fw_node (sample_props auth)].

Definition blob_bad_magic : blob :=
  mk_blob (mk_header 0xdeadbeef 4096 56 1024) (blob_nodes (sample_blob 0)).

Definition blob_no_tb_fw : blob :=
  mk_blob good_header [mk_node ["arm,other"] (<["reg" := [7; 9]]> ∅)].

Definition blob_no_heap_size : blob :=
  mk_blob good_header
    [tb_fw_node (<["disable_auth" := [0]]>
                   (<["mbedtls_heap_addr" := [0; 0]]> ∅))].

Definition blob_no_heap_addr : blob :=
  mk_blob good_header
    [tb_fw_node (<["disable_auth" := [0]]>
                   (<["mbedtls_heap_size" := [0]]> ∅))].

Definition blob_short_heap_addr : blob :=
  mk_blob good_header
    [tb_fw_node (<["mbedtls_heap_addr" := [5]]>
                   (<["mbedtls_heap_size" := [0]]> ∅))].

(** A blob in which a node other than the tagged one has a
    [disable_auth] cell of its own. *)
Definition blob_two_flags : blob :=
  mk_blob good_header
    [mk_node ["arm,other"] (<["disable_auth" := [1]]> ∅);
     tb_fw_node (sample_props 0)].

(** A blob whose heap descriptor is filled in. *)
Definition blob_heap_set : blob :=
  mk_blob good_header
    [tb_fw_node (<["mbedtls_heap_addr" := [1; 2]]>
                   (<["mbedtls_heap_size" := [3]]> ∅))].

(** A slot that cannot be read or written as [cells] cells: the property
    is absent or has another number of cells. *)
Definition unusable_slot (b : blob) (node : Z) (prop : string)
    (cells : Z) : Prop :=
  match fdt_getprop b node prop with
  | None => True
  | Some cs => Z.of_nat (length cs) <> cells
  end.

Ltac step_M :=
  unfold check_header, node_offset_by_compatible, read_cells,
    write_inplace_cells, assert, WARN, ERROR, VERBOSE, emit, get_dtb,
    put_dtb, panic, mbind, M_bind, mret, M_ret;
  simpl.

(** ** The device-tree library: facts *)

Section FdtFacts.

Implicit Types (b : blob) (n : fdt_node) (ns : list fdt_node).
Implicit Types (node cells value : Z) (prop tag : string) (cs : list Z).

Lemma search_compatible_spec tag ns offset startoffset :
  search_compatible tag ns offset startoffset = -1
  \/ (offset <= search_compatible tag ns offset startoffset
      /\ exists n,
           ns !! Z.to_nat (search_compatible tag ns offset startoffset
                           - offset) = Some n
           /\ tag ∈ node_compatible n).
Proof.
  revert offset. induction ns as [|n ns IH]; intros offset; simpl.
  - now left.
  - destruct (startoffset <? offset) eqn:Hlt; simpl.
    + case_bool_decide as Htag.
      * right. split; [lia|]. exists n.
        now replace (offset - offset) with 0 by lia.
      * destruct (IH (offset + 1)) as [->|[Hle (m & Hm & Hin)]];
          [now left|right].
        split; [lia|]. exists m. split; [|done].
        replace (Z.to_nat (search_compatible tag ns (offset + 1)
                             startoffset - offset))
          with (S (Z.to_nat (search_compatible tag ns (offset + 1)
                               startoffset - (offset + 1)))) by lia.
        done.
    + destruct (IH (offset + 1)) as [->|[Hle (m & Hm & Hin)]];
        [now left|right].
      split; [lia|]. exists m. split; [|done].
      replace (Z.to_nat (search_compatible tag ns (offset + 1)
                           startoffset - offset))
        with (S (Z.to_nat (search_compatible tag ns (offset + 1)
                             startoffset - (offset + 1)))) by lia.
      done.
Qed.

(** The search answers a handle of the blob or [-FDT_ERR_NOTFOUND]. *)
Lemma node_offset_found b startoffset tag :
  0 <= fdt_node_offset_by_compatible b startoffset tag ->
  exists n, node_at b (fdt_node_offset_by_compatible b startoffset tag)
            = Some n
            /\ tag ∈ node_compatible n.
Proof.
  unfold fdt_node_offset_by_compatible, node_at. intros Hpos.
  destruct (search_compatible_spec tag (blob_nodes b) 0 startoffset)
    as [Heq|[_ (n & Hn & Hin)]]; [lia|].
  rewrite Z.sub_0_r in Hn. exists n.
  destruct (Z.ltb_spec (search_compatible tag (blob_nodes b) 0 startoffset)
              0); [lia|done].
Qed.

Lemma node_offset_not_found b startoffset tag :
  fdt_node_offset_by_compatible b startoffset tag < 0 ->
  fdt_node_offset_by_compatible b startoffset tag = -1.
Proof.
  unfold fdt_node_offset_by_compatible. intros Hneg.
  destruct (search_compatible_spec tag (blob_nodes b) 0 startoffset)
    as [Heq|[Hle _]]; [done|lia].
Qed.

(** The search looks at the tags only. *)
Lemma search_compatible_tags tag ns ns' offset startoffset :
  node_compatible <$> ns = node_compatible <$> ns' ->
  search_compatible tag ns offset startoffset
  = search_compatible tag ns' offset startoffset.
Proof.
  revert ns' offset. induction ns as [|n ns IH]; intros [|n' ns'] offset;
    simpl; try done.
  intros [= Hn Hns]. rewrite Hn. now rewrite (IH ns').
Qed.

Lemma setprop_header b node prop cs :
  blob_header (fdt_setprop_cells b node prop cs) = blob_header b.
Proof. unfold fdt_setprop_cells. now destruct (node_at b node). Qed.

Lemma setprop_tags b node prop cs :
  node_compatible <$> blob_nodes (fdt_setprop_cells b node prop cs)
  = node_compatible <$> blob_nodes b.
Proof.
  unfold fdt_setprop_cells, node_at.
  destruct (node <? 0); [done|].
  destruct (blob_nodes b !! Z.to_nat node) as [n|] eqn:Hn; [|done].
  simpl. rewrite list_fmap_insert. simpl.
  apply list_insert_id. now rewrite list_lookup_fmap, Hn.
Qed.

Lemma setprop_check_header b node prop cs :
  fdt_check_header (fdt_setprop_cells b node prop cs) = fdt_check_header b.
Proof. unfold fdt_check_header. now rewrite setprop_header. Qed.

Lemma setprop_node_offset b node prop cs startoffset tag :
  fdt_node_offset_by_compatible (fdt_setprop_cells b node prop cs)
    startoffset tag
  = fdt_node_offset_by_compatible b startoffset tag.
Proof.
  unfold fdt_node_offset_by_compatible.
  apply search_compatible_tags, setprop_tags.
Qed.

(** Reading a slot back after it was overwritten. *)
Lemma getprop_setprop_eq b node prop cs :
  is_Some (node_at b node) ->
  fdt_getprop (fdt_setprop_cells b node prop cs) node prop = Some cs.
Proof.
  intros [n Hn]. unfold fdt_getprop, fdt_setprop_cells. rewrite Hn.
  unfold node_at in *. simpl. destruct (node <? 0); [done|].
  rewrite list_lookup_insert_eq by (now apply lookup_lt_Some in Hn).
  simpl. apply lookup_insert_eq.
Qed.

(** Every other slot keeps its cells. *)
Lemma getprop_setprop_ne b node prop cs node' prop' :
  node' <> node \/ prop' <> prop ->
  fdt_getprop (fdt_setprop_cells b node prop cs) node' prop'
  = fdt_getprop b node' prop'.
Proof.
  intros Hne. unfold fdt_getprop, fdt_setprop_cells.
  destruct (node_at b node) as [n|] eqn:Hn; [|done].
  unfold node_at in *. simpl.
  destruct (Z.ltb_spec node' 0); [done|].
  destruct (Z.ltb_spec node 0); [done|].
  destruct (decide (node' = node)) as [->|Hnode].
  - destruct Hne as [|Hprop]; [done|].
    rewrite list_lookup_insert_eq by (now apply lookup_lt_Some in Hn).
    rewrite Hn. simpl. now apply lookup_insert_ne.
  - rewrite list_lookup_insert_ne by lia. done.
Qed.

End FdtFacts.

(** The cells of a scalar. *)
Section Cells.

Lemma cell_range v : 0 <= cell v < 2 ^ 32.
Proof. unfold cell. apply Z.mod_pos_bound. lia. Qed.

Lemma cell_small v : 0 <= v < 2 ^ 32 -> cell v = v.
Proof. unfold cell. intros. now apply Z.mod_small. Qed.

Lemma cell_cell v : cell (cell v) = cell v.
Proof. apply cell_small, cell_range. Qed.

Lemma hi_lo_join v :
  0 <= v -> Z.lor (Z.shiftl (Z.shiftr v 32) 32) (cell v) = v.
Proof.
  intros Hv. unfold cell. apply Z.bits_inj'. intros i Hi.
  rewrite Z.lor_spec.
  destruct (Z.lt_ge_cases i 32) as [Hlow|Hhigh].
  - rewrite Z.shiftl_spec_low by done.
    rewrite Z.mod_pow2_bits_low by done. done.
  - rewrite Z.shiftl_spec by done.
    rewrite Z.shiftr_spec by lia.
    rewrite Z.mod_pow2_bits_high by lia.
    rewrite orb_false_r. f_equal. lia.
Qed.

Lemma length_value_to_cells n v : length (value_to_cells n v) = n.
Proof. induction n as [|n IH]; simpl; [done|now rewrite IH]. Qed.


(** Two cells hold a 64-bit scalar. *)
Lemma cells_two v :
  0 <= v < 2 ^ 64 -> cells_to_value (value_to_cells 2 v) = v.
Proof.
  intros Hv. unfold cells_to_value. simpl.
  change (32 * Z.of_nat 1) with 32. change (32 * Z.of_nat 0) with 0.
  rewrite Z.shiftr_0_r, !cell_cell, Z.shiftl_0_l, Z.lor_0_l.
  rewrite (cell_small (Z.shiftr v 32)).
  - now apply hi_lo_join.
  - rewrite Z.shiftr_div_pow2 by lia. split.
    + apply Z.div_pos; lia.
    + apply Z.div_lt_upper_bound; lia.
Qed.

Lemma cells_single c : cells_to_value [c] = cell c.
Proof. reflexivity. Qed.



End Cells.

Section Shape.

Implicit Types (b : blob) (node cells value : Z) (prop : string).

Lemma setprop_shape b node prop (cs cs' : list Z) :
  fdt_getprop b node prop = Some cs ->
  length cs' = length cs ->
  blob_shape (fdt_setprop_cells b node prop cs') = blob_shape b.
Proof.
  unfold fdt_getprop, fdt_setprop_cells, blob_shape.
  destruct (node_at b node) as [n|] eqn:Hn; simpl; [|done].
  intros Hcs Hlen. f_equal.
  unfold node_at in Hn. destruct (node <? 0); [done|].
  rewrite list_fmap_insert. apply list_insert_id.
  rewrite list_lookup_fmap, Hn. simpl. f_equal.
  unfold node_shape. simpl. f_equal.
  rewrite fmap_insert. symmetry. apply insert_id.
  rewrite lookup_fmap, Hcs. simpl. now rewrite Hlen.
Qed.

(** The in-place write keeps the shape, whether it succeeds or not. *)
Lemma write_inplace_shape b node prop cells value :
  blob_shape (fdtw_write_inplace_cells b node prop cells value).2
  = blob_shape b.
Proof.
  unfold fdtw_write_inplace_cells.
  destruct (fdt_getprop b node prop) as [cs|] eqn:Hcs; [|done].
  destruct (Z.eqb_spec (Z.of_nat (length cs)) cells) as [Hlen|]; [|done].
  simpl. apply (setprop_shape _ _ _ cs); [done|].
  rewrite length_value_to_cells. lia.
Qed.

(** A failed in-place write leaves the blob as it was. *)
Lemma write_inplace_failed b node prop cells value :
  (fdtw_write_inplace_cells b node prop cells value).1 < 0 ->
  (fdtw_write_inplace_cells b node prop cells value).2 = b.
Proof.
  unfold fdtw_write_inplace_cells.
  destruct (fdt_getprop b node prop) as [cs|]; [|done].
  destruct (Z.of_nat (length cs) =? cells); simpl; [lia|done].
Qed.

Lemma write_inplace_status b node prop cells value :
  (fdtw_write_inplace_cells b node prop cells value).1 = 0
  \/ (fdtw_write_inplace_cells b node prop cells value).1 = -1.
Proof.
  unfold fdtw_write_inplace_cells.
  destruct (fdt_getprop b node prop) as [cs|]; [|now right].
  destruct (Z.of_nat (length cs) =? cells); simpl; [now left|now right].
Qed.

(** An in-place write touches the one slot it is given, at most. *)
Lemma write_inplace_other b node prop cells value node' prop' :
  node' <> node \/ prop' <> prop ->
  fdt_getprop (fdtw_write_inplace_cells b node prop cells value).2
    node' prop'
  = fdt_getprop b node' prop'.
Proof.
  intros Hne. unfold fdtw_write_inplace_cells.
  destruct (fdt_getprop b node prop) as [cs|]; [|done].
  destruct (Z.of_nat (length cs) =? cells); simpl; [|done].
  now apply getprop_setprop_ne.
Qed.

(** A successful in-place write stores the cells of the scalar. *)
Lemma write_inplace_stored b node prop cells value :
  (fdtw_write_inplace_cells b node prop cells value).1 = 0 ->
  fdt_getprop (fdtw_write_inplace_cells b node prop cells value).2
    node prop
  = Some (value_to_cells (Z.to_nat cells) value).
Proof.
  unfold fdtw_write_inplace_cells.
  destruct (fdt_getprop b node prop) as [cs|] eqn:Hcs; [|done].
  destruct (Z.of_nat (length cs) =? cells); simpl; [|done].
  intros _. apply getprop_setprop_eq.
  unfold fdt_getprop in Hcs. destruct (node_at b node); [done|done].
Qed.

Lemma write_inplace_check_header b node prop cells value :
  fdt_check_header (fdtw_write_inplace_cells b node prop cells value).2
  = fdt_check_header b.
Proof.
  unfold fdtw_write_inplace_cells.
  destruct (fdt_getprop b node prop) as [cs|]; [|done].
  destruct (Z.of_nat (length cs) =? cells); simpl; [|done].
  apply setprop_check_header.
Qed.

Lemma write_inplace_node_offset b node prop cells value startoffset tag :
  fdt_node_offset_by_compatible
    (fdtw_write_inplace_cells b node prop cells value).2 startoffset tag
  = fdt_node_offset_by_compatible b startoffset tag.
Proof.
  unfold fdtw_write_inplace_cells.
  destruct (fdt_getprop b node prop) as [cs|]; [|done].
  destruct (Z.of_nat (length cs) =? cells); simpl; [|done].
  apply setprop_node_offset.
Qed.

End Shape.

(** ** Running the helpers *)

Section Validator.

Implicit Types (b : blob) (w : world) (node : Z).

Lemma init_bad_header node w :
  fdt_check_header (w_dtb w) <> 0 ->
  arm_dyn_tb_fw_cfg_init node w
  = Returned (-1, node)
      (mk_world (w_dtb w)
         (w_trace w ++ [CallCheckHeader; Log LOG_WARNING MsgInvalidDtb])).
Proof.
  intros Hbad. unfold arm_dyn_tb_fw_cfg_init. step_M.
  destruct (Z.eqb_spec (fdt_check_header (w_dtb w)) 0); [done|]. simpl.
  now rewrite <- app_assoc.
Qed.

Lemma init_not_found node w :
  fdt_check_header (w_dtb w) = 0 ->
  tb_fw_handle (w_dtb w) < 0 ->
  arm_dyn_tb_fw_cfg_init node w
  = Returned (-1, tb_fw_handle (w_dtb w))
      (mk_world (w_dtb w)
         (w_trace w ++ [CallCheckHeader;
                        CallNodeOffsetByCompatible (-1) TB_FW;
                        Log LOG_WARNING MsgCompatibleNotFound])).
Proof.
  intros Hok Hneg. unfold arm_dyn_tb_fw_cfg_init. step_M.
  rewrite Hok. simpl. fold TB_FW. fold (tb_fw_handle (w_dtb w)).
  destruct (Z.ltb_spec (tb_fw_handle (w_dtb w)) 0); [|lia].
  simpl. now rewrite <- !app_assoc.
Qed.

Lemma init_found node w :
  fdt_check_header (w_dtb w) = 0 ->
  0 <= tb_fw_handle (w_dtb w) ->
  arm_dyn_tb_fw_cfg_init node w
  = Returned (0, tb_fw_handle (w_dtb w))
      (mk_world (w_dtb w)
         (w_trace w ++ [CallCheckHeader;
                        CallNodeOffsetByCompatible (-1) TB_FW;
                        Log LOG_VERBOSE MsgFound])).
Proof.
  intros Hok Hpos. unfold arm_dyn_tb_fw_cfg_init. step_M.
  rewrite Hok. simpl. fold TB_FW. fold (tb_fw_handle (w_dtb w)).
  destruct (Z.ltb_spec (tb_fw_handle (w_dtb w)) 0); [lia|].
  simpl. now rewrite <- !app_assoc.
Qed.

(** The validator succeeds exactly on the blobs with a well-formed header
    and a tagged node, and then answers the handle of that node. *)
Lemma init_success node w st node' w' :
  arm_dyn_tb_fw_cfg_init node w = Returned (st, node') w' ->
  st = 0 ->
  fdt_check_header (w_dtb w) = 0
  /\ node' = tb_fw_handle (w_dtb w) /\ 0 <= node' /\ w_dtb w' = w_dtb w.
Proof.
  intros Hrun ->.
  destruct (Z.eq_dec (fdt_check_header (w_dtb w)) 0) as [Hok|Hbad].
  - destruct (Z.lt_ge_cases (tb_fw_handle (w_dtb w)) 0) as [Hneg|Hpos].
    + rewrite init_not_found in Hrun by done. now inversion Hrun.
    + rewrite init_found in Hrun by done. now inversion Hrun.
  - rewrite init_bad_header in Hrun by done. now inversion Hrun.
Qed.

End Validator.

Section Accessor.

Implicit Types (b : blob) (w : world) (node d : Z).

Lemma disable_auth_checked dbg node d w :
  (dbg = true ->
   fdt_check_header (w_dtb w) = 0 /\ node = tb_fw_handle (w_dtb w)) ->
  arm_dyn_get_disable_auth dbg node d w
  = disable_auth_answer
      (w_trace w ++ asserts_trace dbg
         ++ [CallReadCells node "disable_auth" 1])
      (w_dtb w)
      (fdtw_read_cells (w_dtb w) node "disable_auth" 1 d).
Proof.
  intros Hpre. unfold arm_dyn_get_disable_auth, disable_auth_answer.
  destruct (fdtw_read_cells (w_dtb w) node "disable_auth" 1 d)
    as [err v] eqn:Hread.
  destruct dbg; step_M.
  - destruct Hpre as [Hok Hnode]; [done|].
    rewrite Hok. simpl. fold TB_FW. fold (tb_fw_handle (w_dtb w)).
    rewrite <- Hnode, Z.eqb_refl. simpl. rewrite Hread.
    rewrite <- !app_assoc. simpl.
    destruct (err <? 0); simpl; [now rewrite <- !app_assoc|].
    destruct (negb (v =? 0) && negb (v =? 1)); simpl;
      now rewrite <- !app_assoc.
  - rewrite Hread.
    destruct (err <? 0); simpl; [done|].
    destruct (negb (v =? 0) && negb (v =? 1)); simpl; done.
Qed.

(** With assertions, a handle that is not the validator's stops the
    accessor before it reads anything. *)
Lemma disable_auth_forged node d w :
  node <> tb_fw_handle (w_dtb w) ->
  arm_dyn_get_disable_auth true node d w
  = AssertionFailed
      (mk_world (w_dtb w)
         (w_trace w ++
            if fdt_check_header (w_dtb w) =? 0
            then [CallCheckHeader; CallNodeOffsetByCompatible (-1) TB_FW]
            else [CallCheckHeader])).
Proof.
  intros Hne. unfold arm_dyn_get_disable_auth. step_M.
  destruct (fdt_check_header (w_dtb w) =? 0); simpl; [|done].
  fold TB_FW. fold (tb_fw_handle (w_dtb w)).
  destruct (Z.eqb_spec node (tb_fw_handle (w_dtb w))); [done|].
  simpl. now rewrite <- !app_assoc.
Qed.

(** Reading the one cell of a present [disable_auth]. *)
Lemma read_disable_auth b node d v :
  fdt_getprop b node "disable_auth" = Some [v] ->
  0 <= v < 2 ^ 32 ->
  fdtw_read_cells b node "disable_auth" 1 d = (0, v).
Proof.
  intros Hprop Hv. unfold fdtw_read_cells. rewrite Hprop. simpl.
  now rewrite cells_single, cell_small.
Qed.

End Accessor.

Section HeapInfo.

Implicit Types (b : blob) (w : world) (root addr size : Z).

Local Abbreviation ADDR := DTB_PROP_MBEDTLS_HEAP_ADDR.
Local Abbreviation SIZE := DTB_PROP_MBEDTLS_HEAP_SIZE.

Lemma get_heap_validated dtb_root heap_addr heap_size w :
  fdt_check_header (w_dtb w) = 0 ->
  0 <= tb_fw_handle (w_dtb w) ->
  arm_get_dtb_mbedtls_heap_info dtb_root heap_addr heap_size w
  = get_heap_answer (w_trace w ++ found_trace) (w_dtb w)
      (tb_fw_handle (w_dtb w)) heap_addr heap_size.
Proof.
  intros Hok Hpos. unfold arm_get_dtb_mbedtls_heap_info, get_heap_answer.
  unfold mbind at 1, M_bind at 1. rewrite init_found by done.
  change (0 <? 0) with false. cbv iota beta. step_M.
  destruct (fdtw_read_cells (w_dtb w) (tb_fw_handle (w_dtb w)) ADDR 2
              heap_addr) as [erra va].
  simpl. destruct (erra <? 0); simpl.
  { unfold found_trace. now rewrite <- !app_assoc. }
  destruct (fdtw_read_cells (w_dtb w) (tb_fw_handle (w_dtb w)) SIZE 1
              (low_half heap_size)) as [errs vs].
  simpl. destruct (errs <? 0); simpl;
    unfold found_trace; now rewrite <- !app_assoc.
Qed.

Lemma get_heap_invalid dtb_root heap_addr heap_size w :
  fdt_check_header (w_dtb w) <> 0 \/ tb_fw_handle (w_dtb w) < 0 ->
  exists tr,
    arm_get_dtb_mbedtls_heap_info dtb_root heap_addr heap_size w
    = Returned (-1, heap_addr, heap_size) (mk_world (w_dtb w) tr).
Proof.
  intros Hinv. unfold arm_get_dtb_mbedtls_heap_info.
  unfold mbind at 1, M_bind at 1.
  destruct (Z.eq_dec (fdt_check_header (w_dtb w)) 0) as [Hok|Hbad].
  - destruct Hinv as [|Hneg]; [done|].
    rewrite init_not_found by done. step_M. eauto.
  - rewrite init_bad_header by done. step_M. eauto.
Qed.

Lemma set_heap_validated dtb_root heap_addr heap_size w :
  fdt_check_header (w_dtb w) = 0 ->
  0 <= tb_fw_handle (w_dtb w) ->
  arm_set_dtb_mbedtls_heap_info dtb_root heap_addr heap_size w
  = set_heap_answer (w_trace w ++ found_trace) (w_dtb w)
      (tb_fw_handle (w_dtb w)) heap_addr heap_size.
Proof.
  intros Hok Hpos. unfold arm_set_dtb_mbedtls_heap_info, set_heap_answer.
  unfold mbind at 1, M_bind at 1. rewrite init_found by done.
  change (0 <? 0) with false. cbv iota beta. step_M.
  destruct (fdtw_write_inplace_cells (w_dtb w) (tb_fw_handle (w_dtb w))
              ADDR 2 heap_addr) as [erra b1].
  simpl. destruct (erra <? 0); simpl.
  { unfold found_trace. now rewrite <- !app_assoc. }
  destruct (fdtw_write_inplace_cells b1 (tb_fw_handle (w_dtb w)) SIZE 1
              heap_size) as [errs b2].
  simpl. destruct (errs <? 0); simpl;
    unfold found_trace; now rewrite <- !app_assoc.
Qed.

Lemma set_heap_invalid dtb_root heap_addr heap_size w :
  fdt_check_header (w_dtb w) <> 0 \/ tb_fw_handle (w_dtb w) < 0 ->
  exists tr,
    arm_set_dtb_mbedtls_heap_info dtb_root heap_addr heap_size w
    = Returned (-1) (mk_world (w_dtb w) tr).
Proof.
  intros Hinv. unfold arm_set_dtb_mbedtls_heap_info.
  unfold mbind at 1, M_bind at 1.
  destruct (Z.eq_dec (fdt_check_header (w_dtb w)) 0) as [Hok|Hbad].
  - destruct Hinv as [|Hneg]; [done|].
    rewrite init_not_found by done. step_M. eauto.
  - rewrite init_bad_header by done. step_M. eauto.
Qed.

End HeapInfo.

(** ** Scenarios *)

Example scenario_disable_auth_set :
  result_of (run (arm_dyn_get_disable_auth true 1 0) (sample_blob 1))
  = Some (0, 1).
Proof. reflexivity. Qed.

Example scenario_disable_auth_out_of_domain :
  result_of (run (arm_dyn_get_disable_auth true 1 0) (sample_blob 5))
  = Some (-1, 5).
Proof. reflexivity. Qed.

Example scenario_heap_addr_missing :
  result_of (run (arm_get_dtb_mbedtls_heap_info 0 11 22) blob_no_heap_addr)
  = Some (-1, 11, 22).
Proof. reflexivity. Qed.

Example scenario_heap_addr_short :
  result_of
    (run (arm_get_dtb_mbedtls_heap_info 0 11 22) blob_short_heap_addr)
  = Some (-1, 11, 22).
Proof. reflexivity. Qed.

Example scenario_heap_size_missing :
  result_of (run (arm_get_dtb_mbedtls_heap_info 0 11 22) blob_no_heap_size)
  = Some (-1, 0, 22).
Proof. reflexivity. Qed.

Example scenario_write_then_read :
  result_of
    (run (arm_set_dtb_mbedtls_heap_info 0 0x80000000 0x10000;;
          arm_get_dtb_mbedtls_heap_info 0 11 22) (sample_blob 0))
  = Some (0, 0x80000000, 0x10000).
Proof. reflexivity. Qed.

Example scenario_high_address :
  result_of
    (run (arm_set_dtb_mbedtls_heap_info 0 0xfedcba9876543210 0xffffffff;;
          arm_get_dtb_mbedtls_heap_info 0 11 22) (sample_blob 0))
  = Some (0, 0xfedcba9876543210, 0xffffffff).
Proof. reflexivity. Qed.

Example scenario_bad_magic :
  run (arm_dyn_tb_fw_cfg_init 7) blob_bad_magic
  = Returned (-1, 7)
      (mk_world blob_bad_magic
         [CallCheckHeader; Log LOG_WARNING MsgInvalidDtb]).
Proof. reflexivity. Qed.

Example scenario_validator_finds_node :
  result_of (run (arm_dyn_tb_fw_cfg_init 7) (sample_blob 0)) = Some (0, 1).
Proof. reflexivity. Qed.

(** ** The validator *)

(** C1, as the spec states it, fails: a blob with a bad magic and a
    blob with a well-formed header and no ["arm,tb_fw"] node are both
    answered with the same status, so the status alone does not tell the
    malformed header from the missing node. *)
Lemma validator_status_same_for_both_failures :
  fdt_check_header blob_bad_magic <> 0
  /\ fdt_check_header blob_no_tb_fw = 0
  /\ tb_fw_handle blob_no_tb_fw < 0
  /\ status_of fst (run (arm_dyn_tb_fw_cfg_init 0) blob_bad_magic)
     = status_of fst (run (arm_dyn_tb_fw_cfg_init 0) blob_no_tb_fw).
Proof. vm_compute. repeat split; congruence. Qed.

(** C1, amended: on a malformed header and on a well-formed header without
    an ["arm,tb_fw"] node the validator fails, in both cases with the
    status [-1] and without touching the blob, so the status does not tell
    the two failures apart.  On the malformed header the node
    out-parameter is left as the caller had it, the search is not called
    and the diagnostic is "invalid DTB"; on the missing node the node
    out-parameter is overwritten with the negative answer of the search
    and the diagnostic is "compatible not found". *)
Theorem validator_failure_status (b : blob) (node : Z) :
  fdt_check_header b <> 0 \/ tb_fw_handle b < 0 ->
  exists node' tr,
    run (arm_dyn_tb_fw_cfg_init node) b
    = Returned (-1, node') (mk_world b tr)
    /\ (fdt_check_header b <> 0 ->
        node' = node
        /\ tr = [CallCheckHeader; Log LOG_WARNING MsgInvalidDtb])
    /\ (fdt_check_header b = 0 ->
        node' = tb_fw_handle b /\ node' < 0
        /\ tr = [CallCheckHeader; CallNodeOffsetByCompatible (-1) TB_FW;
                 Log LOG_WARNING MsgCompatibleNotFound]).
Proof.
  intros Hfail. unfold run.
  destruct (decide (fdt_check_header b = 0)) as [Hok|Hbad].
  - destruct Hfail as [|Hneg]; [done|].
    rewrite init_not_found by done. simpl.
    eexists _, _. split; [reflexivity|]. split; [done|]. auto.
  - rewrite init_bad_header by done. simpl.
    eexists _, _. split; [reflexivity|]. split; [auto|done].
Qed.

Lemma validator_failure_status_witness :
  exists node' tr,
    run (arm_dyn_tb_fw_cfg_init 7) blob_no_tb_fw
    = Returned (-1, node') (mk_world blob_no_tb_fw tr)
    /\ (fdt_check_header blob_no_tb_fw <> 0 ->
        node' = 7
        /\ tr = [CallCheckHeader; Log LOG_WARNING MsgInvalidDtb])
    /\ (fdt_check_header blob_no_tb_fw = 0 ->
        node' = tb_fw_handle blob_no_tb_fw /\ node' < 0
        /\ tr = [CallCheckHeader; CallNodeOffsetByCompatible (-1) TB_FW;
                 Log LOG_WARNING MsgCompatibleNotFound]).
Proof.
  apply (validator_failure_status blob_no_tb_fw 7).
  right. vm_compute. reflexivity.
Defined.

(** C6: on a blob whose header does not validate, the validator answers
    the error status after the header check alone; the node search is never
    called, the node out-parameter and the blob are left as they were. *)
Theorem validator_bad_header_no_search (b : blob) (node : Z) :
  fdt_check_header b <> 0 ->
  run (arm_dyn_tb_fw_cfg_init node) b
  = Returned (-1, node)
      (mk_world b [CallCheckHeader; Log LOG_WARNING MsgInvalidDtb])
  /\ forall startoffset tag,
       CallNodeOffsetByCompatible startoffset tag
       ∉ trace_of (run (arm_dyn_tb_fw_cfg_init node) b).
Proof.
  intros Hbad. unfold run. rewrite init_bad_header by done. simpl.
  split; [done|]. intros startoffset tag Hin.
  apply list_elem_of_In in Hin. simpl in Hin.
  destruct Hin as [|[|[]]]; discriminate.
Qed.

Lemma validator_bad_header_no_search_witness :
  run (arm_dyn_tb_fw_cfg_init 7) blob_bad_magic
  = Returned (-1, 7)
      (mk_world blob_bad_magic
         [CallCheckHeader; Log LOG_WARNING MsgInvalidDtb])
  /\ forall startoffset tag,
       CallNodeOffsetByCompatible startoffset tag
       ∉ trace_of (run (arm_dyn_tb_fw_cfg_init 7) blob_bad_magic).
Proof.
  apply (validator_bad_header_no_search blob_bad_magic 7).
  vm_compute. discriminate.
Defined.

(** ** The [disable_auth] accessor *)

(** C2: with a handle that is the validator's and a [disable_auth] cell
    holding the 32-bit value [v], the accessor succeeds and hands out [v]
    itself when [v] is 0 or 1; for any other [v] it fails with the
    invalid-value diagnostic, and what it leaves in the out-parameter is
    [v], not a truth value made from it. *)
Theorem disable_auth_domain (dbg : bool) (b : blob) (node d v : Z) :
  fdt_check_header b = 0 ->
  node = tb_fw_handle b ->
  fdt_getprop b node "disable_auth" = Some [v] ->
  0 <= v < 2 ^ 32 ->
  (v = 0 \/ v = 1 ->
   exists tr,
     run (arm_dyn_get_disable_auth dbg node d) b
     = Returned (0, v) (mk_world b tr))
  /\ (v <> 0 -> v <> 1 ->
      exists tr,
        run (arm_dyn_get_disable_auth dbg node d) b
        = Returned (-1, v)
            (mk_world b (tr ++ [Log LOG_WARNING (MsgInvalidValue v)]))).
Proof.
  intros Hok Hnode Hprop Hv. unfold run.
  rewrite disable_auth_checked by done. simpl.
  rewrite (read_disable_auth _ _ _ v) by done.
  unfold disable_auth_answer. simpl. split.
  - intros [-> | ->]; simpl; eauto.
  - intros H0 H1.
    destruct (Z.eqb_spec v 0); [done|]. destruct (Z.eqb_spec v 1); [done|].
    simpl. eauto.
Qed.

Lemma disable_auth_domain_witness :
  (exists tr,
     run (arm_dyn_get_disable_auth true 1 99) (sample_blob 1)
     = Returned (0, 1) (mk_world (sample_blob 1) tr))
  /\ (exists tr,
        run (arm_dyn_get_disable_auth true 1 99) (sample_blob 5)
        = Returned (-1, 5)
            (mk_world (sample_blob 5)
               (tr ++ [Log LOG_WARNING (MsgInvalidValue 5)]))).
Proof.
  split.
  - apply (disable_auth_domain true (sample_blob 1) 1 99 1);
      [reflexivity | reflexivity | reflexivity | lia | right; reflexivity].
  - apply (disable_auth_domain true (sample_blob 5) 1 99 5);
      [reflexivity | reflexivity | reflexivity | lia | lia | lia].
Defined.

(** C10: when the stored value [v] is neither 0 nor 1, the accessor
    answers the error status and the out-parameter holds [v]: whatever the
    caller had there before the call has been overwritten. *)
Theorem disable_auth_domain_error_output (dbg : bool) (b : blob)
    (node d v : Z) :
  (dbg = true -> fdt_check_header b = 0 /\ node = tb_fw_handle b) ->
  fdt_getprop b node "disable_auth" = Some [v] ->
  0 <= v < 2 ^ 32 ->
  v <> 0 -> v <> 1 ->
  exists st out w,
    run (arm_dyn_get_disable_auth dbg node d) b = Returned (st, out) w
    /\ st = -1 /\ out = v /\ (d <> v -> out <> d)
    /\ last (w_trace w) = Some (Log LOG_WARNING (MsgInvalidValue v)).
Proof.
  intros Hpre Hprop Hv H0 H1. unfold run.
  rewrite disable_auth_checked by done. simpl.
  rewrite (read_disable_auth _ _ _ v) by done.
  unfold disable_auth_answer. simpl.
  destruct (Z.eqb_spec v 0); [done|]. destruct (Z.eqb_spec v 1); [done|].
  simpl. eexists _, _, _. split; [reflexivity|]. simpl.
  repeat split; [congruence|]. now rewrite last_snoc.
Qed.

Lemma disable_auth_domain_error_output_witness :
  exists st out w,
    run (arm_dyn_get_disable_auth false 1 0) (sample_blob 5)
    = Returned (st, out) w
    /\ st = -1 /\ out = 5 /\ (0 <> 5 -> out <> 0)
    /\ last (w_trace w) = Some (Log LOG_WARNING (MsgInvalidValue 5)).
Proof.
  apply (disable_auth_domain_error_output false (sample_blob 5) 1 0 5);
    [discriminate | reflexivity | lia | lia | lia].
Defined.

(** Without the property, the accessor fails and the out-parameter keeps
    what the caller had in it. *)
Lemma disable_auth_missing_output (dbg : bool) (b : blob) (node d : Z) :
  (dbg = true -> fdt_check_header b = 0 /\ node = tb_fw_handle b) ->
  fdt_getprop b node "disable_auth" = None ->
  exists tr,
    run (arm_dyn_get_disable_auth dbg node d) b
    = Returned (-1, d)
        (mk_world b (tr ++ [Log LOG_WARNING MsgReadCellFailed])).
Proof.
  intros Hpre Hprop. unfold run.
  rewrite disable_auth_checked by done. simpl.
  unfold fdtw_read_cells. rewrite Hprop.
  unfold disable_auth_answer. simpl. eauto.
Qed.

(** C8: built with assertions, the accessor compares the handle it is given
    with the handle the validator computes for the blob at that moment.  A
    handle that differs stops the program at the assertion, before any cell
    is read and with the blob untouched; a handle the validator has just
    produced for this blob passes, and the accessor returns. *)
Theorem disable_auth_handle_checked (b : blob) (node d : Z) :
  (node <> tb_fw_handle b ->
   exists tr,
     run (arm_dyn_get_disable_auth true node d) b
     = AssertionFailed (mk_world b tr)
     /\ forall n prop cells, CallReadCells n prop cells ∉ tr)
  /\ (forall node0 w,
        run (arm_dyn_tb_fw_cfg_init node0) b = Returned (0, node) w ->
        exists r w',
          run (arm_dyn_get_disable_auth true node d) b = Returned r w').
Proof.
  split.
  - intros Hne. unfold run. rewrite disable_auth_forged by done. simpl.
    eexists. split; [reflexivity|]. intros n prop cells Hin.
    apply list_elem_of_In in Hin.
    destruct (fdt_check_header b =? 0); simpl in Hin;
      intuition discriminate.
  - intros node0 w Hinit.
    apply init_success in Hinit as (Hok & Hnode & _ & _); [|done].
    simpl in *. unfold run. rewrite disable_auth_checked by done.
    unfold disable_auth_answer.
    destruct (_ <? 0); [eauto|]. destruct (_ && _); eauto.
Qed.

Lemma disable_auth_handle_checked_witness :
  (exists tr,
     run (arm_dyn_get_disable_auth true 0 9) (sample_blob 1)
     = AssertionFailed (mk_world (sample_blob 1) tr)
     /\ forall n prop cells, CallReadCells n prop cells ∉ tr)
  /\ (exists r w',
        run (arm_dyn_get_disable_auth true 1 9) (sample_blob 1)
        = Returned r w').
Proof.
  split.
  - apply (proj1 (disable_auth_handle_checked (sample_blob 1) 0 9)).
    vm_compute. discriminate.
  - apply (proj2 (disable_auth_handle_checked (sample_blob 1) 1 9)
             7 (mk_world (sample_blob 1) found_trace)).
    reflexivity.
Defined.

(** Built without assertions, the accessor does not look at the handle: a
    handle of another node is read from as if it were the right one. *)
Lemma disable_auth_release_unchecked :
  tb_fw_handle (sample_blob 1) <> 0
  /\ run (arm_dyn_get_disable_auth false 0 9) (sample_blob 1)
     = Returned (-1, 9)
         (mk_world (sample_blob 1)
            [CallReadCells 0 "disable_auth" 1;
             Log LOG_WARNING MsgReadCellFailed]).
Proof. split; [vm_compute; discriminate|reflexivity]. Qed.

(** ** The heap descriptor *)

Section HeapDescriptor.

Implicit Types (b : blob) (w : world) (addr size : Z).

Local Abbreviation ADDR := DTB_PROP_MBEDTLS_HEAP_ADDR.
Local Abbreviation SIZE := DTB_PROP_MBEDTLS_HEAP_SIZE.

(** The writer fails unless the validator succeeds. *)
Lemma set_heap_success dtb_root addr size w w' :
  arm_set_dtb_mbedtls_heap_info dtb_root addr size w = Returned 0 w' ->
  fdt_check_header (w_dtb w) = 0 /\ 0 <= tb_fw_handle (w_dtb w).
Proof.
  intros Hrun.
  destruct (Z.eq_dec (fdt_check_header (w_dtb w)) 0) as [Hok|Hbad].
  - destruct (Z.lt_ge_cases (tb_fw_handle (w_dtb w)) 0) as [Hneg|Hpos];
      [|done].
    destruct (set_heap_invalid dtb_root addr size w) as [tr Htr];
      [now right|congruence].
  - destruct (set_heap_invalid dtb_root addr size w) as [tr Htr];
      [now left|congruence].
Qed.

(** The writer never changes the shape of the blob. *)
Lemma set_heap_keeps_shape dtb_root addr size b :
  blob_shape (blob_of (run (arm_set_dtb_mbedtls_heap_info dtb_root addr size)
                         b))
  = blob_shape b.
Proof.
  unfold run.
  destruct (Z.eq_dec (fdt_check_header b) 0) as [Hok|Hbad].
  - destruct (Z.lt_ge_cases (tb_fw_handle b) 0) as [Hneg|Hpos].
    + destruct (set_heap_invalid dtb_root addr size (mk_world b []))
        as [tr ->]; [now right|done].
    + rewrite set_heap_validated by done. unfold set_heap_answer. simpl.
      destruct (_ <? 0); simpl; [apply write_inplace_shape|].
      destruct (_ <? 0); simpl;
        now rewrite !write_inplace_shape.
  - destruct (set_heap_invalid dtb_root addr size (mk_world b []))
      as [tr ->]; [now left|done].
Qed.

(** C5: when [mbedtls_heap_addr] or [mbedtls_heap_size] is absent from
    the node, or has fewer cells than the two and the one required, the
    reader answers the error status and leaves the blob alone; and the
    reader answers success only with both outputs read from the blob, the
    address from two cells and the size from one cell, which is stored in
    the low half of the size output. *)
Theorem get_heap_all_or_nothing (b : blob) (dtb_root heap_addr heap_size : Z) :
  (missing_or_short b (tb_fw_handle b) ADDR 2
   \/ missing_or_short b (tb_fw_handle b) SIZE 1 ->
   exists a s tr,
     run (arm_get_dtb_mbedtls_heap_info dtb_root heap_addr heap_size) b
     = Returned (-1, a, s) (mk_world b tr))
  /\ (forall a s w,
        run (arm_get_dtb_mbedtls_heap_info dtb_root heap_addr heap_size) b
        = Returned (0, a, s) w ->
        exists ca cs,
          fdt_getprop b (tb_fw_handle b) ADDR = Some ca
          /\ length ca = 2%nat /\ a = cells_to_value ca
          /\ fdt_getprop b (tb_fw_handle b) SIZE = Some cs
          /\ length cs = 1%nat
          /\ s = store_low_half heap_size (cells_to_value cs)).
Proof.
  unfold run.
  destruct (Z.eq_dec (fdt_check_header b) 0) as [Hok|Hbad];
    [destruct (Z.lt_ge_cases (tb_fw_handle b) 0) as [Hneg|Hpos]|].
  2: {
    rewrite get_heap_validated by done.
    unfold get_heap_answer, fdtw_read_cells, missing_or_short. simpl.
    destruct (fdt_getprop b (tb_fw_handle b) ADDR) as [ca|]; simpl.
    2: { split; [eauto|]. intros a s w [=]. }
    destruct (Z.eqb_spec (Z.of_nat (length ca)) 2) as [Hca|Hca]; simpl.
    2: { split; [eauto|]. intros a s w [=]. }
    destruct (fdt_getprop b (tb_fw_handle b) SIZE) as [cs|]; simpl.
    2: { split; [eauto|]. intros a s w [=]. }
    destruct (Z.eqb_spec (Z.of_nat (length cs)) 1) as [Hcs|Hcs]; simpl.
    2: { split; [eauto|]. intros a s w [=]. }
    split; [lia|]. intros a s w [= <- <- <-].
    exists ca, cs. repeat split; lia. }
  all: destruct (get_heap_invalid dtb_root heap_addr heap_size
                   (mk_world b [])) as [tr ->];
    [auto|split; [eauto|intros a s w [=]]].
Qed.

Lemma get_heap_all_or_nothing_witness :
  exists a s tr,
    run (arm_get_dtb_mbedtls_heap_info 0 11 22) blob_no_heap_addr
    = Returned (-1, a, s) (mk_world blob_no_heap_addr tr).
Proof.
  apply (proj1 (get_heap_all_or_nothing blob_no_heap_addr 0 11 22)).
  left. vm_compute. exact I.
Defined.





(** A size that does not fit the one cell of [mbedtls_heap_size] is
    stored cut down to its 32 low bits, and read back so. *)
Lemma heap_size_wider_than_cell :
  result_of
    (run (arm_set_dtb_mbedtls_heap_info 0 0x80000000 (2 ^ 32 + 5);;
          arm_get_dtb_mbedtls_heap_info 0 11 22) (sample_blob 0))
  = Some (0, 0x80000000, 5).
Proof. reflexivity. Qed.

(** C4: when the write of the address succeeds and the write of the size
    fails, the writer answers the error status and leaves the blob as the
    address write made it: the address slot holds the new address, the size
    slot holds what it held before (if it exists at all), and nothing is
    rolled back. *)
Theorem set_heap_partial_write (b b1 : blob) (dtb_root addr size : Z) :
  fdt_check_header b = 0 ->
  0 <= tb_fw_handle b ->
  0 <= addr < 2 ^ 64 ->
  fdtw_write_inplace_cells b (tb_fw_handle b) ADDR 2 addr = (0, b1) ->
  (fdtw_write_inplace_cells b1 (tb_fw_handle b) SIZE 1 size).1 < 0 ->
  exists tr,
    run (arm_set_dtb_mbedtls_heap_info dtb_root addr size) b
    = Returned (-1) (mk_world b1 tr)
    /\ (forall a, fdtw_read_cells b1 (tb_fw_handle b) ADDR 2 a = (0, addr))
    /\ fdt_getprop b1 (tb_fw_handle b) SIZE
       = fdt_getprop b (tb_fw_handle b) SIZE
    /\ last tr = Some (Log LOG_ERROR (MsgWriteError SIZE)).
Proof.
  intros Hok Hpos Haddr Hwa Hws. unfold run.
  rewrite set_heap_validated by done. simpl.
  unfold set_heap_answer. rewrite Hwa. simpl.
  destruct (Z.ltb_spec (fdtw_write_inplace_cells b1 (tb_fw_handle b) SIZE 1
                          size).1 0) as [_|]; [|lia].
  rewrite write_inplace_failed by done.
  eexists. split; [reflexivity|].
  assert (b1 = (fdtw_write_inplace_cells b (tb_fw_handle b) ADDR 2 addr).2)
    as Hb1 by now rewrite Hwa.
  repeat split.
  - intros a. unfold fdtw_read_cells. rewrite Hb1.
    rewrite write_inplace_stored by now rewrite Hwa. simpl.
    pose proof (cells_two addr Haddr) as Htwo. simpl in Htwo.
    now rewrite Htwo.
  - rewrite Hb1. apply write_inplace_other. now right.
Qed.

Lemma set_heap_partial_write_witness :
  exists tr,
    run (arm_set_dtb_mbedtls_heap_info 0 0x80000000 0x10000)
      blob_no_heap_size
    = Returned (-1)
        (mk_world
           (fdt_setprop_cells blob_no_heap_size 0 ADDR [0; 0x80000000]) tr)
    /\ (forall a,
          fdtw_read_cells
            (fdt_setprop_cells blob_no_heap_size 0 ADDR [0; 0x80000000])
            (tb_fw_handle blob_no_heap_size) ADDR 2 a
          = (0, 0x80000000))
    /\ fdt_getprop
         (fdt_setprop_cells blob_no_heap_size 0 ADDR [0; 0x80000000])
         (tb_fw_handle blob_no_heap_size) SIZE
       = fdt_getprop blob_no_heap_size (tb_fw_handle blob_no_heap_size) SIZE
    /\ last tr = Some (Log LOG_ERROR (MsgWriteError SIZE)).
Proof.
  apply (set_heap_partial_write blob_no_heap_size
           (fdt_setprop_cells blob_no_heap_size 0 ADDR [0; 0x80000000])
           0 0x80000000 0x10000);
    [reflexivity | vm_compute; discriminate | lia | reflexivity
    | vm_compute; reflexivity].
Defined.

(** C7: when the node has no [mbedtls_heap_addr] slot or no
    [mbedtls_heap_size] slot, the writer answers the error status.  The
    blob it leaves has the header, the nodes, the property names and the
    cell counts of the blob it was given, so nothing was added or resized;
    every slot other than the address slot of the node holds what it held;
    and when it is the address slot that is absent the blob is not changed
    at all.  On a validated blob the failure is reported as a write
    error. *)
Theorem set_heap_missing_slot (b : blob) (dtb_root addr size : Z) :
  fdt_getprop b (tb_fw_handle b) ADDR = None
  \/ fdt_getprop b (tb_fw_handle b) SIZE = None ->
  exists b' tr,
    run (arm_set_dtb_mbedtls_heap_info dtb_root addr size) b
    = Returned (-1) (mk_world b' tr)
    /\ blob_shape b' = blob_shape b
    /\ (forall node prop,
          node <> tb_fw_handle b \/ prop <> ADDR ->
          fdt_getprop b' node prop = fdt_getprop b node prop)
    /\ (fdt_getprop b (tb_fw_handle b) ADDR = None -> b' = b)
    /\ (fdt_check_header b = 0 -> 0 <= tb_fw_handle b ->
        exists prop, last tr = Some (Log LOG_ERROR (MsgWriteError prop))).
Proof.
  intros Hmiss.
  pose proof (set_heap_keeps_shape dtb_root addr size b) as Hshape.
  unfold run in *.
  destruct (Z.eq_dec (fdt_check_header b) 0) as [Hok|Hbad];
    [destruct (Z.lt_ge_cases (tb_fw_handle b) 0) as [Hneg|Hpos]|].
  2: {
    rewrite set_heap_validated in * by done. simpl in *.
    unfold set_heap_answer in *.
    set (root := tb_fw_handle b) in *.
    destruct (fdtw_write_inplace_cells b root ADDR 2 addr) as [erra b1]
      eqn:Hwa.
    simpl in *.
    assert (b1 = (fdtw_write_inplace_cells b root ADDR 2 addr).2) as Hb1
      by now rewrite Hwa.
    destruct (Z.ltb_spec erra 0) as [Herra|Herra].
    - assert (b1 = b) as ->.
      { rewrite Hb1. apply write_inplace_failed. now rewrite Hwa. }
      exists b. eexists. split; [reflexivity|].
      repeat split; eauto.
    - assert (fdt_getprop b root ADDR <> None) as Hpresent.
      { intros Hnone. unfold fdtw_write_inplace_cells in Hwa.
        rewrite Hnone in Hwa. injection Hwa as <- _. lia. }
      destruct Hmiss as [|Hnosize]; [done|].
      assert (fdt_getprop b1 root SIZE = None) as Hnosize1.
      { rewrite Hb1, write_inplace_other by (now right). done. }
      assert (fdtw_write_inplace_cells b1 root SIZE 1 size = (-1, b1)) as Hws
        by (unfold fdtw_write_inplace_cells; now rewrite Hnosize1).
      rewrite Hws in *. simpl in *. exists b1. eexists. split; [reflexivity|].
      repeat split; [done| |done|eauto].
      intros node prop Hother. rewrite Hb1.
      now apply write_inplace_other. }
  all: destruct (set_heap_invalid dtb_root addr size (mk_world b []))
         as [tr ->]; [auto|];
    exists b, tr; split; [reflexivity|]; split; [done|]; split; [done|];
    split; [done|]; intros; lia.
Qed.

Lemma set_heap_missing_slot_witness :
  exists b' tr,
    run (arm_set_dtb_mbedtls_heap_info 0 0x80000000 0x10000)
      blob_no_heap_addr
    = Returned (-1) (mk_world b' tr)
    /\ blob_shape b' = blob_shape blob_no_heap_addr
    /\ (forall node prop,
          node <> tb_fw_handle blob_no_heap_addr \/ prop <> ADDR ->
          fdt_getprop b' node prop = fdt_getprop blob_no_heap_addr node prop)
    /\ (fdt_getprop blob_no_heap_addr (tb_fw_handle blob_no_heap_addr) ADDR
        = None -> b' = blob_no_heap_addr)
    /\ (fdt_check_header blob_no_heap_addr = 0 ->
        0 <= tb_fw_handle blob_no_heap_addr ->
        exists prop, last tr = Some (Log LOG_ERROR (MsgWriteError prop))).
Proof.
  apply (set_heap_missing_slot blob_no_heap_addr 0 0x80000000 0x10000).
  left. reflexivity.
Defined.

End HeapDescriptor.

(** ** Determinism *)

Section Determinism.

Context {A B : Type}.




End Determinism.


















(** ** Further properties of the validator and of the accessor *)

Section MoreValidator.

Implicit Types (b : blob) (w : world) (node h d : Z).

(** The validator answers success exactly when the header is well formed
    and the search finds a node, and the handle it hands out is the one
    the search found. *)
Theorem validator_succeeds_iff b node h :
  result_of (run (arm_dyn_tb_fw_cfg_init node) b) = Some (0, h)
  <-> fdt_check_header b = 0 /\ h = tb_fw_handle b /\ 0 <= h.
Proof.
  unfold run. split.
  - destruct (arm_dyn_tb_fw_cfg_init node (mk_world b []))
      as [[st h'] w|w] eqn:Hrun; simpl; [|done].
    intros [= -> ->].
    destruct (init_success _ _ _ _ _ Hrun eq_refl) as (Hok & Hh & Hpos & _).
    done.
  - intros (Hok & -> & Hpos). now rewrite init_found.
Qed.

(** A handle handed out with the success status denotes a node of the
    blob that carries the ["arm,tb_fw"] tag, and the blob is as it was. *)
Theorem validator_handle_is_tagged b node h w :
  run (arm_dyn_tb_fw_cfg_init node) b = Returned (0, h) w ->
  w_dtb w = b
  /\ exists n, node_at b h = Some n /\ TB_FW ∈ node_compatible n.
Proof.
  intros Hrun.
  destruct (init_success _ _ _ _ _ Hrun eq_refl) as (Hok & -> & Hpos & Hb).
  simpl in *. split; [done|]. now apply node_offset_found.
Qed.

Lemma validator_handle_is_tagged_witness :
  w_dtb (mk_world (sample_blob 0) found_trace) = sample_blob 0
  /\ exists n, node_at (sample_blob 0) 1 = Some n
               /\ TB_FW ∈ node_compatible n.
Proof.
  apply (validator_handle_is_tagged (sample_blob 0) 7 1
           (mk_world (sample_blob 0) found_trace)).
  reflexivity.
Defined.



(** Whatever the blob, the handle and the build, an accessor that returns
    answers [0] or [-1], leaves the blob as it was, and with the status
    [0] the value it hands out is 0 or 1. *)
Theorem disable_auth_success_is_boolean (dbg : bool) b node d st out w :
  run (arm_dyn_get_disable_auth dbg node d) b = Returned (st, out) w ->
  (st = 0 \/ st = -1)
  /\ (st = 0 -> out = 0 \/ out = 1)
  /\ w_dtb w = b.
Proof.
  unfold run, arm_dyn_get_disable_auth. step_M.
  assert (forall tr,
            (let '(err, v) := fdtw_read_cells b node "disable_auth" 1 d in
             if err <? 0 then
               fun w0 =>
                 Returned (-1, v)
                   (mk_world (w_dtb w0)
                      (w_trace w0 ++ [Log LOG_WARNING MsgReadCellFailed]))
             else if negb (v =? 0) && negb (v =? 1) then
               fun w0 =>
                 Returned (-1, v)
                   (mk_world (w_dtb w0)
                      (w_trace w0 ++ [Log LOG_WARNING (MsgInvalidValue v)]))
             else
               fun w0 =>
                 Returned (0, v)
                   (mk_world (w_dtb w0)
                      (w_trace w0 ++ [Log LOG_VERBOSE (MsgCellFound v)])))
              (mk_world b tr) = Returned (st, out) w ->
            (st = 0 \/ st = -1) /\ (st = 0 -> out = 0 \/ out = 1)
            /\ w_dtb w = b) as Hread.
  { intros tr.
    destruct (fdtw_read_cells b node "disable_auth" 1 d) as [err v].
    destruct (err <? 0); simpl;
      [intros [= <- <- <-]; simpl; split; [lia|split; [lia|done]]|].
    destruct (Z.eqb_spec v 0), (Z.eqb_spec v 1); simpl;
      intros [= <- <- <-]; simpl; (split; [lia|split; [lia|done]]). }
  destruct dbg; simpl; [|apply Hread].
  destruct (fdt_check_header b =? 0); simpl; [|done].
  destruct (node =? _); simpl; [|done].
  apply Hread.
Qed.

Lemma disable_auth_success_is_boolean_witness :
  (0 = 0 \/ 0 = -1)
  /\ (0 = 0 -> 1 = 0 \/ 1 = 1)
  /\ w_dtb (mk_world (sample_blob 1)
              [CallReadCells 1 "disable_auth" 1;
               Log LOG_VERBOSE (MsgCellFound 1)])
     = sample_blob 1.
Proof.
  apply (disable_auth_success_is_boolean false (sample_blob 1) 1 9 0 1
           (mk_world (sample_blob 1)
              [CallReadCells 1 "disable_auth" 1;
               Log LOG_VERBOSE (MsgCellFound 1)])).
  reflexivity.
Defined.



(** Built without assertions, the accessor looks at neither the header
    nor the handle: on a blob with a well-formed header it reads the
    [disable_auth] cell of whatever node the handle denotes, and the only
    library call it makes is that read. *)
Theorem disable_auth_release_trusts_handle b node d v :
  fdt_check_header b = 0 ->
  fdt_getprop b node "disable_auth" = Some [v] ->
  v = 0 \/ v = 1 ->
  run (arm_dyn_get_disable_auth false node d) b
  = Returned (0, v)
      (mk_world b [CallReadCells node "disable_auth" 1;
                   Log LOG_VERBOSE (MsgCellFound v)]).
Proof.
  intros _ Hprop Hv. unfold run.
  rewrite disable_auth_checked by done. simpl.
  rewrite (read_disable_auth _ _ _ v) by (done || lia).
  unfold disable_auth_answer. simpl.
  destruct Hv as [-> | ->]; reflexivity.
Qed.

Lemma disable_auth_release_trusts_handle_witness :
  tb_fw_handle blob_two_flags <> 0
  /\ run (arm_dyn_get_disable_auth false 0 9) blob_two_flags
     = Returned (0, 1)
         (mk_world blob_two_flags
            [CallReadCells 0 "disable_auth" 1;
             Log LOG_VERBOSE (MsgCellFound 1)]).
Proof.
  split; [vm_compute; discriminate|].
  apply (disable_auth_release_trusts_handle blob_two_flags 0 9 1);
    [reflexivity | reflexivity | right; reflexivity].
Defined.

(** Built with assertions, the accessor stops at its first assertion on a
    blob whose header does not validate, whatever the handle: the header
    check is the only library call made. *)
Theorem disable_auth_debug_bad_header b node d :
  fdt_check_header b <> 0 ->
  run (arm_dyn_get_disable_auth true node d) b
  = AssertionFailed (mk_world b [CallCheckHeader]).
Proof.
  intros Hbad. unfold run, arm_dyn_get_disable_auth. step_M.
  destruct (Z.eqb_spec (fdt_check_header b) 0); done.
Qed.

Lemma disable_auth_debug_bad_header_witness :
  run (arm_dyn_get_disable_auth true 1 9) blob_bad_magic
  = AssertionFailed (mk_world blob_bad_magic [CallCheckHeader]).
Proof.
  apply (disable_auth_debug_bad_header blob_bad_magic 1 9).
  vm_compute. discriminate.
Defined.

End MoreValidator.

(** ** Further properties of the heap descriptor *)

Section MoreHeap.

Implicit Types (b : blob) (w : world) (node addr size : Z).

Local Abbreviation ADDR := DTB_PROP_MBEDTLS_HEAP_ADDR.
Local Abbreviation SIZE := DTB_PROP_MBEDTLS_HEAP_SIZE.


Lemma write_unusable b node prop cells value :
  unusable_slot b node prop cells ->
  fdtw_write_inplace_cells b node prop cells value = (-1, b).
Proof.
  unfold unusable_slot, fdtw_write_inplace_cells.
  destruct (fdt_getprop b node prop) as [cs|]; [|done].
  intros Hlen. now destruct (Z.eqb_spec (Z.of_nat (length cs)) cells).
Qed.

Lemma write_usable b node prop cells value (cs : list Z) :
  fdt_getprop b node prop = Some cs ->
  Z.of_nat (length cs) = cells ->
  fdtw_write_inplace_cells b node prop cells value
  = (0, fdt_setprop_cells b node prop
          (value_to_cells (Z.to_nat cells) value)).
Proof.
  intros Hprop Hlen. unfold fdtw_write_inplace_cells. rewrite Hprop.
  now destruct (Z.eqb_spec (Z.of_nat (length cs)) cells).
Qed.

(** A write succeeds exactly on a slot of the required width. *)
Lemma write_status_usable b node prop cells value :
  (fdtw_write_inplace_cells b node prop cells value).1 = 0
  <-> exists cs : list Z,
        fdt_getprop b node prop = Some cs /\ Z.of_nat (length cs) = cells.
Proof.
  unfold fdtw_write_inplace_cells.
  destruct (fdt_getprop b node prop) as [cs|]; simpl.
  - destruct (Z.eqb_spec (Z.of_nat (length cs)) cells); simpl.
    + split; [eauto|done].
    + split; [done|]. intros (cs' & [= <-] & Hlen). done.
  - split; [done|]. intros (cs' & [=] & _).
Qed.

(** Writing the cells a slot already holds changes nothing. *)
Lemma setprop_same b node prop (cs : list Z) :
  fdt_getprop b node prop = Some cs ->
  fdt_setprop_cells b node prop cs = b.
Proof.
  unfold fdt_getprop, fdt_setprop_cells.
  destruct (node_at b node) as [n|] eqn:Hn; simpl; [|done].
  intros Hcs. destruct b as [hdr ns]. simpl. f_equal.
  unfold node_at in Hn. simpl in Hn. destruct (node <? 0); [done|].
  apply list_insert_id. rewrite Hn. f_equal.
  destruct n as [tags props]. unfold set_node_prop. simpl in *. f_equal.
  symmetry. now apply insert_id.
Qed.

(** The two cells of an address, most significant first. *)
Lemma cells_hi_lo hi lo :
  0 <= hi < 2 ^ 32 -> 0 <= lo < 2 ^ 32 ->
  cells_to_value [hi; lo] = hi * 2 ^ 32 + lo.
Proof.
  intros Hhi Hlo. unfold cells_to_value. simpl.
  rewrite Z.shiftl_0_l, Z.lor_0_l, !cell_small, Z.shiftl_mul_pow2 by lia.
  transitivity (Z.lor (Z.shiftl (Z.shiftr (hi * 2 ^ 32 + lo) 32) 32)
                  (cell (hi * 2 ^ 32 + lo))); [|apply hi_lo_join; lia].
  rewrite Z.shiftr_div_pow2, Z.shiftl_mul_pow2 by lia.
  replace ((hi * 2 ^ 32 + lo) / 2 ^ 32) with hi
    by (apply Z.div_unique with lo; lia).
  f_equal. unfold cell. rewrite Z.add_comm, Z.mod_add by lia.
  symmetry. now apply Z.mod_small.
Qed.

(** The reader on a blob the validator rejects: the status is [-1], both
    outputs keep what the caller had in them, and no cell is read. *)
Theorem get_heap_unvalidated b dtb_root heap_addr heap_size :
  fdt_check_header b <> 0 \/ tb_fw_handle b < 0 ->
  exists tr,
    run (arm_get_dtb_mbedtls_heap_info dtb_root heap_addr heap_size) b
    = Returned (-1, heap_addr, heap_size) (mk_world b tr)
    /\ (forall n prop cells, CallReadCells n prop cells ∉ tr)
    /\ last tr = Some (Log LOG_ERROR MsgCannotRetrieveHeap).
Proof.
  intros Hinv. unfold run, arm_get_dtb_mbedtls_heap_info.
  unfold mbind at 1, M_bind at 1.
  destruct (Z.eq_dec (fdt_check_header b) 0) as [Hok|Hbad].
  - destruct Hinv as [|Hneg]; [done|].
    rewrite init_not_found by done. step_M.
    eexists. split; [reflexivity|]. split; [|done].
    intros n prop cells Hin. apply list_elem_of_In in Hin. simpl in Hin.
    intuition discriminate.
  - rewrite init_bad_header by done. step_M.
    eexists. split; [reflexivity|]. split; [|done].
    intros n prop cells Hin. apply list_elem_of_In in Hin. simpl in Hin.
    intuition discriminate.
Qed.

Lemma get_heap_unvalidated_witness :
  exists tr,
    run (arm_get_dtb_mbedtls_heap_info 0 11 22) blob_bad_magic
    = Returned (-1, 11, 22) (mk_world blob_bad_magic tr)
    /\ (forall n prop cells, CallReadCells n prop cells ∉ tr)
    /\ last tr = Some (Log LOG_ERROR MsgCannotRetrieveHeap).
Proof.
  apply (get_heap_unvalidated blob_bad_magic 0 11 22).
  left. vm_compute. discriminate.
Defined.





(** The reader on a validated blob with both slots filled: the status is
    [0], the address is made of the two address cells with the first cell
    as its upper 32 bits, and the size output has the size cell as its low
    32 bits and keeps the upper half the caller's variable had before the
    call. *)
Theorem get_heap_success_values b dtb_root heap_addr heap_size hi lo sz :
  fdt_check_header b = 0 ->
  0 <= tb_fw_handle b ->
  fdt_getprop b (tb_fw_handle b) ADDR = Some [hi; lo] ->
  fdt_getprop b (tb_fw_handle b) SIZE = Some [sz] ->
  0 <= hi < 2 ^ 32 -> 0 <= lo < 2 ^ 32 -> 0 <= sz < 2 ^ 32 ->
  run (arm_get_dtb_mbedtls_heap_info dtb_root heap_addr heap_size) b
  = Returned (0, hi * 2 ^ 32 + lo, heap_size / 2 ^ 32 * 2 ^ 32 + sz)
      (mk_world b
         (found_trace ++ [CallReadCells (tb_fw_handle b) ADDR 2;
                          CallReadCells (tb_fw_handle b) SIZE 1])).
Proof.
  intros Hok Hpos Ha Hs Hhi Hlo Hsz. unfold run.
  rewrite get_heap_validated by done. unfold get_heap_answer. simpl.
  unfold fdtw_read_cells. rewrite Ha, Hs. simpl.
  rewrite cells_hi_lo, cells_single, cell_small by done.
  unfold store_low_half. rewrite (Z.mod_small sz) by done. reflexivity.
Qed.

Lemma get_heap_success_values_witness :
  run (arm_get_dtb_mbedtls_heap_info 0 11 0x700000016) blob_heap_set
  = Returned (0, 1 * 2 ^ 32 + 2, 0x700000016 / 2 ^ 32 * 2 ^ 32 + 3)
      (mk_world blob_heap_set
         (found_trace ++ [CallReadCells (tb_fw_handle blob_heap_set) ADDR 2;
                          CallReadCells (tb_fw_handle blob_heap_set) SIZE 1])).
Proof.
  apply (get_heap_success_values blob_heap_set 0 11 0x700000016 1 2 3);
    [reflexivity | vm_compute; discriminate | reflexivity | reflexivity
    | lia | lia | lia].
Defined.

(** The writer on a blob the validator rejects: the status is [-1], the
    blob is as it was, and no write is attempted. *)
Theorem set_heap_unvalidated b dtb_root addr size :
  fdt_check_header b <> 0 \/ tb_fw_handle b < 0 ->
  exists tr,
    run (arm_set_dtb_mbedtls_heap_info dtb_root addr size) b
    = Returned (-1) (mk_world b tr)
    /\ (forall n prop cells v, CallWriteInplaceCells n prop cells v ∉ tr)
    /\ last tr = Some (Log LOG_ERROR MsgNoRootNode).
Proof.
  intros Hinv. unfold run, arm_set_dtb_mbedtls_heap_info.
  unfold mbind at 1, M_bind at 1.
  destruct (Z.eq_dec (fdt_check_header b) 0) as [Hok|Hbad].
  - destruct Hinv as [|Hneg]; [done|].
    rewrite init_not_found by done. step_M.
    eexists. split; [reflexivity|]. split; [|done].
    intros n prop cells v Hin. apply list_elem_of_In in Hin. simpl in Hin.
    intuition discriminate.
  - rewrite init_bad_header by done. step_M.
    eexists. split; [reflexivity|]. split; [|done].
    intros n prop cells v Hin. apply list_elem_of_In in Hin. simpl in Hin.
    intuition discriminate.
Qed.

Lemma set_heap_unvalidated_witness :
  exists tr,
    run (arm_set_dtb_mbedtls_heap_info 0 0x80000000 0x10000) blob_no_tb_fw
    = Returned (-1) (mk_world blob_no_tb_fw tr)
    /\ (forall n prop cells v, CallWriteInplaceCells n prop cells v ∉ tr)
    /\ last tr = Some (Log LOG_ERROR MsgNoRootNode).
Proof.
  apply (set_heap_unvalidated blob_no_tb_fw 0 0x80000000 0x10000).
  right. vm_compute. reflexivity.
Defined.

(** The writer on a validated blob whose address slot is absent or not
    two cells wide: the status is [-1], the blob is as it was, and the
    size is not written even when its slot could take it. *)
Theorem set_heap_addr_failure b dtb_root addr size :
  fdt_check_header b = 0 ->
  0 <= tb_fw_handle b ->
  unusable_slot b (tb_fw_handle b) ADDR 2 ->
  run (arm_set_dtb_mbedtls_heap_info dtb_root addr size) b
  = Returned (-1)
      (mk_world b
         (found_trace
            ++ [CallWriteInplaceCells (tb_fw_handle b) ADDR 2 addr;
                Log LOG_ERROR (MsgWriteError ADDR)])).
Proof.
  intros Hok Hpos Hslot. unfold run.
  rewrite set_heap_validated by done. unfold set_heap_answer. simpl.
  now rewrite write_unusable.
Qed.

Lemma set_heap_addr_failure_witness :
  run (arm_set_dtb_mbedtls_heap_info 0 0x80000000 0x10000)
    blob_short_heap_addr
  = Returned (-1)
      (mk_world blob_short_heap_addr
         (found_trace
            ++ [CallWriteInplaceCells (tb_fw_handle blob_short_heap_addr)
                  ADDR 2 0x80000000;
                Log LOG_ERROR (MsgWriteError ADDR)])).
Proof.
  apply (set_heap_addr_failure blob_short_heap_addr 0 0x80000000 0x10000);
    [reflexivity | vm_compute; discriminate | vm_compute; discriminate].
Defined.

(** The writer answers success exactly on a blob with a well-formed
    header, a tagged node, an address slot of two cells and a size slot of
    one cell. *)
Theorem set_heap_succeeds_iff b dtb_root addr size :
  result_of (run (arm_set_dtb_mbedtls_heap_info dtb_root addr size) b)
  = Some 0
  <-> fdt_check_header b = 0
      /\ 0 <= tb_fw_handle b
      /\ (exists ca : list Z,
            fdt_getprop b (tb_fw_handle b) ADDR = Some ca
            /\ length ca = 2%nat)
      /\ (exists cs : list Z,
            fdt_getprop b (tb_fw_handle b) SIZE = Some cs
            /\ length cs = 1%nat).
Proof.
  unfold run. split.
  - destruct (arm_set_dtb_mbedtls_heap_info dtb_root addr size
                (mk_world b [])) as [st w|w] eqn:Hrun; simpl; [|done].
    intros [= ->].
    destruct (set_heap_success _ _ _ _ _ Hrun) as [Hok Hpos]. simpl in *.
    rewrite set_heap_validated in Hrun by done. simpl in Hrun.
    unfold set_heap_answer in Hrun.
    pose proof (write_status_usable b (tb_fw_handle b) ADDR 2 addr) as Ha.
    pose proof (write_inplace_status b (tb_fw_handle b) ADDR 2 addr) as Hsa.
    destruct (fdtw_write_inplace_cells b (tb_fw_handle b) ADDR 2 addr)
      as [erra b1] eqn:Hwa.
    simpl in *. destruct (Z.ltb_spec erra 0); [done|].
    pose proof (write_status_usable b1 (tb_fw_handle b) SIZE 1 size) as Hs.
    pose proof (write_inplace_status b1 (tb_fw_handle b) SIZE 1 size)
      as Hss.
    destruct (fdtw_write_inplace_cells b1 (tb_fw_handle b) SIZE 1 size)
      as [errs b2] eqn:Hws.
    simpl in *. destruct (Z.ltb_spec errs 0); [done|].
    destruct (proj1 Ha ltac:(lia)) as (ca & Hca & Hlca).
    destruct (proj1 Hs ltac:(lia)) as (cs & Hcs & Hlcs).
    assert (b1 = (fdtw_write_inplace_cells b (tb_fw_handle b) ADDR 2
                    addr).2) as Hb1 by now rewrite Hwa.
    rewrite Hb1, write_inplace_other in Hcs by (now right).
    repeat split; [done|done| |]; eexists; (split; [eassumption|lia]).
  - intros (Hok & Hpos & (ca & Hca & Hlca) & (cs & Hcs & Hlcs)).
    rewrite set_heap_validated by done. unfold set_heap_answer. simpl.
    rewrite (write_usable _ _ ADDR 2 _ ca) by (done || lia). simpl.
    rewrite (write_usable _ _ SIZE 1 _ cs); [done| |lia].
    rewrite getprop_setprop_ne by (now right). done.
Qed.

(** What a successful writer leaves: the address slot holds the two cells
    of the address, upper 32 bits first, the size slot holds the low 32
    bits of the size, and every other slot of every node holds what it
    held. *)
Theorem set_heap_success_blob b dtb_root addr size w :
  run (arm_set_dtb_mbedtls_heap_info dtb_root addr size) b = Returned 0 w ->
  fdt_getprop (w_dtb w) (tb_fw_handle b) ADDR
  = Some [cell (Z.shiftr addr 32); cell addr]
  /\ fdt_getprop (w_dtb w) (tb_fw_handle b) SIZE = Some [cell size]
  /\ forall node prop,
       node <> tb_fw_handle b \/ (prop <> ADDR /\ prop <> SIZE) ->
       fdt_getprop (w_dtb w) node prop = fdt_getprop b node prop.
Proof.
  unfold run. intros Hrun.
  destruct (set_heap_success _ _ _ _ _ Hrun) as [Hok Hpos]. simpl in *.
  rewrite set_heap_validated in Hrun by done. simpl in Hrun.
  unfold set_heap_answer in Hrun.
  set (root := tb_fw_handle b) in *.
  pose proof (write_inplace_status b root ADDR 2 addr) as Hsa.
  pose proof (write_inplace_stored b root ADDR 2 addr) as Hga.
  pose proof (fun n p => write_inplace_other b root ADDR 2 addr n p) as Hoa.
  destruct (fdtw_write_inplace_cells b root ADDR 2 addr) as [erra b1].
  simpl in *. destruct (Z.ltb_spec erra 0); [done|].
  pose proof (write_inplace_status b1 root SIZE 1 size) as Hss.
  pose proof (write_inplace_stored b1 root SIZE 1 size) as Hgs.
  pose proof (fun n p => write_inplace_other b1 root SIZE 1 size n p) as Hos.
  destruct (fdtw_write_inplace_cells b1 root SIZE 1 size) as [errs b2].
  simpl in *. destruct (Z.ltb_spec errs 0); [done|].
  injection Hrun as <-. simpl.
  change (32 * Z.of_nat 1) with 32 in *.
  change (32 * Z.of_nat 0) with 0 in *.
  rewrite Z.shiftr_0_r in *.
  split; [|split].
  - rewrite Hos by (now right). apply Hga. lia.
  - apply Hgs. lia.
  - intros node prop Hother. rewrite Hos, Hoa; [done| |];
      destruct Hother as [|[? ?]]; auto.
Qed.

Lemma set_heap_success_blob_witness :
  fdt_getprop
    (fdt_setprop_cells
       (fdt_setprop_cells (sample_blob 0) 1 ADDR [0; 0x80000000])
       1 SIZE [0x10000])
    (tb_fw_handle (sample_blob 0)) ADDR
  = Some [cell (Z.shiftr 0x80000000 32); cell 0x80000000]
  /\ fdt_getprop
       (fdt_setprop_cells
          (fdt_setprop_cells (sample_blob 0) 1 ADDR [0; 0x80000000])
          1 SIZE [0x10000])
       (tb_fw_handle (sample_blob 0)) SIZE
     = Some [cell 0x10000]
  /\ forall node prop,
       node <> tb_fw_handle (sample_blob 0)
       \/ (prop <> ADDR /\ prop <> SIZE) ->
       fdt_getprop
         (fdt_setprop_cells
            (fdt_setprop_cells (sample_blob 0) 1 ADDR [0; 0x80000000])
            1 SIZE [0x10000])
         node prop
       = fdt_getprop (sample_blob 0) node prop.
Proof.
  apply (set_heap_success_blob (sample_blob 0) 0 0x80000000 0x10000
           (mk_world
              (fdt_setprop_cells
                 (fdt_setprop_cells (sample_blob 0) 1 ADDR [0; 0x80000000])
                 1 SIZE [0x10000])
              (found_trace
                 ++ [CallWriteInplaceCells 1 ADDR 2 0x80000000;
                     CallWriteInplaceCells 1 SIZE 1 0x10000]))).
  reflexivity.
Defined.

(** Writing again the scalar a slot was last written with is accepted
    and changes nothing. *)
Lemma write_again b node prop cells value :
  0 <= cells ->
  fdt_getprop b node prop = Some (value_to_cells (Z.to_nat cells) value) ->
  fdtw_write_inplace_cells b node prop cells value = (0, b).
Proof.
  intros Hcells Hprop.
  rewrite (write_usable _ _ _ _ _ _ Hprop)
    by (rewrite length_value_to_cells; lia).
  now rewrite setprop_same.
Qed.

(** What the writer leaves, whatever its status: the header check and the
    search answer as before, and only the two heap slots of the tagged
    node can hold something else. *)
Lemma set_heap_frame b dtb_root addr size :
  let b' := blob_of (run (arm_set_dtb_mbedtls_heap_info dtb_root addr size)
                       b) in
  fdt_check_header b' = fdt_check_header b
  /\ tb_fw_handle b' = tb_fw_handle b
  /\ forall node prop,
       node <> tb_fw_handle b \/ (prop <> ADDR /\ prop <> SIZE) ->
       fdt_getprop b' node prop = fdt_getprop b node prop.
Proof.
  unfold run.
  destruct (Z.eq_dec (fdt_check_header b) 0) as [Hok|Hbad];
    [destruct (Z.lt_ge_cases (tb_fw_handle b) 0) as [Hneg|Hpos]|].
  2: {
    rewrite set_heap_validated by done. unfold set_heap_answer. simpl.
    set (root := tb_fw_handle b).
    set (wa := fdtw_write_inplace_cells b root ADDR 2 addr).
    set (ws := fdtw_write_inplace_cells wa.2 root SIZE 1 size).
    assert (fdt_check_header wa.2 = fdt_check_header b) as Hca
      by apply write_inplace_check_header.
    assert (tb_fw_handle wa.2 = tb_fw_handle b) as Hha
      by apply write_inplace_node_offset.
    assert (fdt_check_header ws.2 = fdt_check_header b) as Hcs
      by (unfold ws; now rewrite write_inplace_check_header).
    assert (tb_fw_handle ws.2 = tb_fw_handle b) as Hhs
      by (unfold ws, tb_fw_handle; now rewrite write_inplace_node_offset).
    assert (forall node prop,
              node <> root \/ (prop <> ADDR /\ prop <> SIZE) ->
              fdt_getprop wa.2 node prop = fdt_getprop b node prop) as Hoa.
    { intros node prop [|[? ?]]; apply write_inplace_other; auto. }
    assert (forall node prop,
              node <> root \/ (prop <> ADDR /\ prop <> SIZE) ->
              fdt_getprop ws.2 node prop = fdt_getprop b node prop) as Hos.
    { intros node prop Hother. unfold ws.
      rewrite write_inplace_other by (destruct Hother as [|[? ?]]; auto).
      now apply Hoa. }
    destruct (wa.1 <? 0); simpl; [auto|].
    destruct (ws.1 <? 0); simpl; auto. }
  all: destruct (set_heap_invalid dtb_root addr size (mk_world b []))
         as [tr ->]; [auto|done].
Qed.

(** The writer is idempotent: run again with the same address and size on
    the blob it left, it answers the same status and leaves that blob as
    it is. *)
Theorem set_heap_idempotent b dtb_root dtb_root' addr size :
  let o := run (arm_set_dtb_mbedtls_heap_info dtb_root addr size) b in
  let o' := run (arm_set_dtb_mbedtls_heap_info dtb_root' addr size)
              (blob_of o) in
  result_of o' = result_of o /\ blob_of o' = blob_of o.
Proof.
  unfold run.
  destruct (Z.eq_dec (fdt_check_header b) 0) as [Hok|Hbad];
    [destruct (Z.lt_ge_cases (tb_fw_handle b) 0) as [Hneg|Hpos]|].
  2: {
    rewrite (set_heap_validated dtb_root addr size (mk_world b [])) by done.
    unfold set_heap_answer. simpl.
    set (root := tb_fw_handle b).
    pose proof (write_inplace_status b root ADDR 2 addr) as Hsa.
    pose proof (write_inplace_failed b root ADDR 2 addr) as Hfa.
    pose proof (write_inplace_stored b root ADDR 2 addr) as Hga.
    pose proof (write_inplace_check_header b root ADDR 2 addr) as Hca.
    pose proof (write_inplace_node_offset b root ADDR 2 addr (-1) TB_FW)
      as Hha.
    destruct (fdtw_write_inplace_cells b root ADDR 2 addr) as [erra b1]
      eqn:Hwa.
    simpl in *. fold (tb_fw_handle b1) in Hha. fold (tb_fw_handle b) in Hha.
    destruct (Z.ltb_spec erra 0) as [Herra|Herra]; simpl.
    - assert (b1 = b) as -> by now apply Hfa.
      rewrite set_heap_validated by done. unfold set_heap_answer. simpl.
      fold root. rewrite Hwa. simpl.
      destruct (Z.ltb_spec erra 0); [done|lia].
    - assert (erra = 0) as -> by lia.
      pose proof (write_inplace_status b1 root SIZE 1 size) as Hss.
      pose proof (write_inplace_failed b1 root SIZE 1 size) as Hfs.
      pose proof (write_inplace_stored b1 root SIZE 1 size) as Hgs.
      pose proof (write_inplace_check_header b1 root SIZE 1 size) as Hcs.
      pose proof (write_inplace_node_offset b1 root SIZE 1 size (-1) TB_FW)
        as Hhs.
      pose proof (write_inplace_other b1 root SIZE 1 size root ADDR) as Hos.
      destruct (fdtw_write_inplace_cells b1 root SIZE 1 size) as [errs b2]
        eqn:Hws.
      simpl in *. fold (tb_fw_handle b2) in Hhs.
      fold (tb_fw_handle b1) in Hhs.
      destruct (Z.ltb_spec errs 0) as [Herrs|Herrs]; simpl.
      + rewrite Hfs in * by done.
        rewrite set_heap_validated by (simpl; congruence).
        unfold set_heap_answer. simpl. rewrite Hha. fold root.
        rewrite (write_again b1 root ADDR 2 addr) by (lia || auto).
        simpl. rewrite Hws. simpl.
        destruct (Z.ltb_spec errs 0); [done|lia].
      + assert (errs = 0) as -> by lia.
        rewrite set_heap_validated by (simpl; congruence).
        unfold set_heap_answer. simpl. rewrite Hhs, Hha. fold root.
        rewrite (write_again b2 root ADDR 2 addr);
          [|lia|rewrite Hos by (now right); auto].
        simpl. rewrite (write_again b2 root SIZE 1 size) by (lia || auto).
        done. }
  all: destruct (set_heap_invalid dtb_root addr size (mk_world b []))
         as [tr ->]; [auto|]; simpl;
    destruct (set_heap_invalid dtb_root' addr size (mk_world b []))
      as [tr' ->]; [auto|done].
Qed.

(** The answer of the validator depends on the header check and on the
    search only. *)
Lemma init_depends_on b b' node :
  fdt_check_header b' = fdt_check_header b ->
  tb_fw_handle b' = tb_fw_handle b ->
  result_of (run (arm_dyn_tb_fw_cfg_init node) b')
  = result_of (run (arm_dyn_tb_fw_cfg_init node) b).
Proof.
  intros Hc Hh. unfold run.
  destruct (Z.eq_dec (fdt_check_header b) 0) as [Hok|Hbad];
    [destruct (Z.lt_ge_cases (tb_fw_handle b) 0) as [Hneg|Hpos]|].
  - rewrite !init_not_found by (simpl; congruence). simpl. now rewrite Hh.
  - rewrite !init_found by (simpl; congruence). simpl. now rewrite Hh.
  - rewrite !init_bad_header by (simpl; congruence). done.
Qed.

(** The answer of the accessor depends on the header check, on the search
    and on the [disable_auth] slot of the node it is given. *)
Lemma disable_auth_depends_on b b' (dbg : bool) node d :
  fdt_check_header b' = fdt_check_header b ->
  tb_fw_handle b' = tb_fw_handle b ->
  fdt_getprop b' node "disable_auth" = fdt_getprop b node "disable_auth" ->
  result_of (run (arm_dyn_get_disable_auth dbg node d) b')
  = result_of (run (arm_dyn_get_disable_auth dbg node d) b).
Proof.
  intros Hc Hh Hp.
  assert (fdtw_read_cells b' node "disable_auth" 1 d
          = fdtw_read_cells b node "disable_auth" 1 d) as Hr
    by (unfold fdtw_read_cells; now rewrite Hp).
  unfold run, arm_dyn_get_disable_auth. step_M.
  fold TB_FW. fold (tb_fw_handle b) (tb_fw_handle b').
  destruct dbg; simpl.
  - rewrite Hc. destruct (fdt_check_header b =? 0); simpl; [|done].
    fold TB_FW. fold (tb_fw_handle b) (tb_fw_handle b'). rewrite Hh.
    destruct (node =? tb_fw_handle b); simpl; [|done].
    rewrite Hr. destruct (fdtw_read_cells b node "disable_auth" 1 d)
      as [err v].
    destruct (err <? 0); simpl; [done|].
    destruct (negb (v =? 0) && negb (v =? 1)); done.
  - rewrite Hr. destruct (fdtw_read_cells b node "disable_auth" 1 d)
      as [err v].
    destruct (err <? 0); simpl; [done|].
    destruct (negb (v =? 0) && negb (v =? 1)); done.
Qed.

(** The writer does not disturb the validator or the accessor: on the
    blob the writer leaves, whatever its status, the validator answers
    the same status and handle as before, and the accessor the same
    status and flag. *)
Theorem set_heap_keeps_validation_and_flag b dtb_root addr size
    (dbg : bool) node node0 d :
  let b' := blob_of (run (arm_set_dtb_mbedtls_heap_info dtb_root addr size)
                       b) in
  result_of (run (arm_dyn_tb_fw_cfg_init node0) b')
  = result_of (run (arm_dyn_tb_fw_cfg_init node0) b)
  /\ result_of (run (arm_dyn_get_disable_auth dbg node d) b')
     = result_of (run (arm_dyn_get_disable_auth dbg node d) b).
Proof.
  intros b'.
  destruct (set_heap_frame b dtb_root addr size) as (Hc & Hh & Hother).
  fold b' in Hc, Hh, Hother. split.
  - now apply init_depends_on.
  - apply disable_auth_depends_on; [done|done|].
    apply Hother. right. split; discriminate.
Qed.

(** Only the low 32 bits of the size reach the blob: two sizes that
    differ by a multiple of [2 ^ 32] get the same status and leave the
    same blob. *)
Theorem set_heap_size_low_bits b dtb_root addr size k :
  result_of (run (arm_set_dtb_mbedtls_heap_info dtb_root addr
                    (size + k * 2 ^ 32)) b)
  = result_of (run (arm_set_dtb_mbedtls_heap_info dtb_root addr size) b)
  /\ blob_of (run (arm_set_dtb_mbedtls_heap_info dtb_root addr
                     (size + k * 2 ^ 32)) b)
     = blob_of (run (arm_set_dtb_mbedtls_heap_info dtb_root addr size) b).
Proof.
  assert (forall b1 node,
            fdtw_write_inplace_cells b1 node SIZE 1 (size + k * 2 ^ 32)
            = fdtw_write_inplace_cells b1 node SIZE 1 size) as Hsame.
  { intros b1 node. unfold fdtw_write_inplace_cells. simpl.
    change (32 * Z.of_nat 0) with 0. rewrite !Z.shiftr_0_r.
    unfold cell. now rewrite Z.mod_add by lia. }
  unfold run.
  destruct (Z.eq_dec (fdt_check_header b) 0) as [Hok|Hbad];
    [destruct (Z.lt_ge_cases (tb_fw_handle b) 0) as [Hneg|Hpos]|].
  2: {
    rewrite !set_heap_validated by done. unfold set_heap_answer. simpl.
    rewrite Hsame.
    destruct (_ <? 0); simpl; [done|]. destruct (_ <? 0); simpl; done. }
  all: destruct (set_heap_invalid dtb_root addr size (mk_world b []))
         as [tr ->]; [auto|];
    destruct (set_heap_invalid dtb_root addr (size + k * 2 ^ 32)
                (mk_world b [])) as [tr' ->]; [auto|done].
Qed.

(** The validator always returns: it answers [0] or [-1], leaves the blob
    as it was and touches no property. *)
Theorem validator_total_read_only b node :
  exists st h tr,
    run (arm_dyn_tb_fw_cfg_init node) b = Returned (st, h) (mk_world b tr)
    /\ (st = 0 \/ st = -1)
    /\ (forall n prop cells, CallReadCells n prop cells ∉ tr)
    /\ (forall n prop cells v, CallWriteInplaceCells n prop cells v ∉ tr).
Proof.
  unfold run.
  destruct (Z.eq_dec (fdt_check_header b) 0) as [Hok|Hbad];
    [destruct (Z.lt_ge_cases (tb_fw_handle b) 0) as [Hneg|Hpos]|];
    [rewrite init_not_found by done
    |rewrite init_found by done
    |rewrite init_bad_header by done];
    simpl; eexists _, _, _; (split; [reflexivity|]);
    (split; [lia|]); split; intros; intros Hin;
    apply list_elem_of_In in Hin; simpl in Hin; intuition discriminate.
Qed.

(** The reader always returns: it answers [0] or [-1], leaves the blob as
    it was and writes no property. *)
Theorem get_heap_total_read_only b dtb_root heap_addr heap_size :
  exists st a s tr,
    run (arm_get_dtb_mbedtls_heap_info dtb_root heap_addr heap_size) b
    = Returned (st, a, s) (mk_world b tr)
    /\ (st = 0 \/ st = -1)
    /\ (forall n prop cells v, CallWriteInplaceCells n prop cells v ∉ tr).
Proof.
  unfold run.
  destruct (Z.eq_dec (fdt_check_header b) 0) as [Hok|Hbad];
    [destruct (Z.lt_ge_cases (tb_fw_handle b) 0) as [Hneg|Hpos]|].
  2: {
    rewrite get_heap_validated by done. unfold get_heap_answer. simpl.
    destruct (_ <? 0); simpl; [|destruct (_ <? 0); simpl];
      eexists _, _, _, _; (split; [reflexivity|]); (split; [lia|]);
      intros; intros Hin; apply list_elem_of_In in Hin; simpl in Hin;
      intuition discriminate. }
  all: unfold arm_get_dtb_mbedtls_heap_info;
    unfold mbind at 1, M_bind at 1;
    first [rewrite init_not_found by done|rewrite init_bad_header by done];
    step_M; eexists _, _, _, _; (split; [reflexivity|]); (split; [lia|]);
    intros; intros Hin; apply list_elem_of_In in Hin; simpl in Hin;
    intuition discriminate.
Qed.

(** The writer always returns: it answers [0] or [-1], never the [1] its
    header comment names for an error, and whatever it answers the blob
    it leaves has the header, the nodes, the property names and the cell
    counts of the blob it was given. *)
Theorem set_heap_total_keeps_shape b dtb_root addr size :
  exists st b' tr,
    run (arm_set_dtb_mbedtls_heap_info dtb_root addr size) b
    = Returned st (mk_world b' tr)
    /\ (st = 0 \/ st = -1)
    /\ blob_shape b' = blob_shape b.
Proof.
  pose proof (set_heap_keeps_shape dtb_root addr size b) as Hshape.
  unfold run in *.
  destruct (Z.eq_dec (fdt_check_header b) 0) as [Hok|Hbad];
    [destruct (Z.lt_ge_cases (tb_fw_handle b) 0) as [Hneg|Hpos]|].
  2: {
    rewrite set_heap_validated in * by done. unfold set_heap_answer in *.
    simpl in *.
    destruct (_ <? 0); simpl in *; [|destruct (_ <? 0); simpl in *];
      eexists _, _, _; (split; [reflexivity|]); (split; [lia|done]). }
  all: destruct (set_heap_invalid dtb_root addr size (mk_world b []))
         as [tr ->]; [auto|];
    eexists _, _, _; (split; [reflexivity|]); (split; [lia|done]).
Qed.

End MoreHeap.
